(** * The wells map viewer: a model of [App.tsx] and its properties

    The viewer is one React component.  It keeps the list of wells in an
    Immer reducer cell, fetches [/api/wells] once after mounting, and
    returns a Leaflet map carrying one [Marker] (with a [Popup]) per well.

    The development has three layers:
    - [JS]: the part of the ECMAScript run time the component relies on
      (strings, Numbers, the [Number(...)] coercion, property reads, [??]);
    - [Immer]: what [useImmerReducer] does with the value a recipe returns;
    - [App]: the reducer, the fetch effect and the element tree the
      component returns.

    The component is followed up to what it returns and what it does:
    the element descriptions (with their props) and the console and
    dispatch calls.  Three things stay outside.  The body of a response
    is taken as already read by [response.json()], a value or the error of
    a body that is not JSON.  What react-leaflet and Leaflet do with the
    returned elements when they mount them is not part of the component.
    And Number::toString, which the component can reach only by coercing an
    array that holds numbers, is a parameter of the coercions. *)

From Stdlib Require Import List ZArith NArith Bool Lia.
From Stdlib Require Ascii String.
Import ListNotations String.StringSyntax.

(* ================================================================== *)
(** * The ECMAScript run time                                          *)
(* ================================================================== *)

Module JS.

Local Open Scope string_scope.
Local Open Scope Z_scope.

(** ** Strings

    A string is a finite sequence of UTF-16 code units. *)

Definition jsstring := list N.

(** The code units of an ASCII literal of the source text. *)
Definition lit (s : String.string) : jsstring :=
  map Ascii.N_of_ascii (String.list_ascii_of_string s).

Definition jsstring_eqb (a b : jsstring) : bool :=
  if list_eq_dec N.eq_dec a b then true else false.

(** ** Numbers

    A Number is an IEEE 754 binary64 value.  A non-zero finite one is
    [(-1)^negative * mantissa * 2^exponent], kept canonical: normal values
    have [2^52 <= mantissa < 2^53] and [-1074 <= exponent <= 971],
    subnormal ones have [mantissa < 2^52] and [exponent = -1074]. *)

Inductive number : Type :=
| NaN
| Infinity (negative : bool)
| Zero (negative : bool)
| Finite (negative : bool) (mantissa : positive) (exponent : Z).

Definition number_eq_dec (x y : number) : {x = y} + {x <> y}.
Proof. repeat decide equality. Defined.

(** [binade p q] is the integer [b] with [2^b <= p/q < 2^(b+1)]. *)
Definition binade (p q : positive) : Z :=
  let d := Z.log2 (Zpos p) - Z.log2 (Zpos q) in
  if Zpos p * 2 ^ Z.max 0 (- d) <? Zpos q * 2 ^ Z.max 0 d then d - 1 else d.

(** The integer nearest to [n / d], ties going to the even one. *)
Definition round_half_even (n d : Z) : Z :=
  let q := n / d in
  let r := n mod d in
  if 2 * r <? d then q
  else if d <? 2 * r then q + 1
  else if Z.even q then q else q + 1.

(** RoundMVResult: the Number for the positive rational [p / q], signed by
    [neg], under roundTiesToEven, every digit of the text counting.  The
    mantissa is rounded at the exponent of the binade, or at [-1074] below
    the normal range; a carry to [2^53] moves up one exponent, and a value
    past the largest finite Number is an infinity. *)
Definition RoundMV (neg : bool) (p q : positive) : number :=
  let b := binade p q in
  let e := Z.max (b - 52) (-1074) in
  let m := round_half_even (Zpos p * 2 ^ Z.max 0 (- e))
                           (Zpos q * 2 ^ Z.max 0 e) in
  let '(m, e) := if m =? 2 ^ 53 then (2 ^ 52, e + 1) else (m, e) in
  if 971 <? e then Infinity neg
  else match m with
       | Zpos m => Finite neg m e
       | _ => Zero neg
       end.

(** The Number for [m * 10^e10], signed by [neg]. *)
Definition of_decimal (neg : bool) (m : N) (e10 : Z) : number :=
  match m with
  | N0 => Zero neg
  | Npos p =>
      if 0 <=? e10
      then RoundMV neg (p * Z.to_pos (10 ^ e10)) 1
      else RoundMV neg p (Z.to_pos (10 ^ (- e10)))
  end.

(** ** StringToNumber *)

(** StrWhiteSpaceChar: WhiteSpace (TAB U+0009, VT U+000B, FF U+000C,
    ZWNBSP U+FEFF and the space separators U+0020, U+00A0, U+1680,
    U+2000 to U+200A, U+202F, U+205F, U+3000) and LineTerminator
    (LF U+000A, CR U+000D, LS U+2028, PS U+2029). *)
Definition is_whitespace (c : N) : bool :=
  ((9 <=? c) && (c <=? 13)
   || (c =? 32) || (c =? 160) || (c =? 5760)
   || (8192 <=? c) && (c <=? 8202)
   || (c =? 8232) || (c =? 8233) || (c =? 8239) || (c =? 8287)
   || (c =? 12288) || (c =? 65279))%N.

Fixpoint drop_while (f : N -> bool) (s : jsstring) : jsstring :=
  match s with
  | c :: s' => if f c then drop_while f s' else s
  | [] => []
  end.

Fixpoint take_while (f : N -> bool) (s : jsstring) : jsstring :=
  match s with
  | c :: s' => if f c then c :: take_while f s' else []
  | [] => []
  end.

(** [s] is empty or starts with a code unit that [f] refuses. *)
Definition stops (f : N -> bool) (s : jsstring) : Prop :=
  match s with
  | [] => True
  | c :: _ => f c = false
  end.

(** Strips StrWhiteSpace from both ends. *)
Definition trim (s : jsstring) : jsstring :=
  rev (drop_while is_whitespace (rev (drop_while is_whitespace s))).

(** The value of a digit in bases up to sixteen. *)
Definition digit_value (c : N) : option N :=
  (if (48 <=? c) && (c <=? 57) then Some (c - 48)
   else if (97 <=? c) && (c <=? 102) then Some (c - 87)
   else if (65 <=? c) && (c <=? 70) then Some (c - 55)
   else None)%N.

Definition is_digit (base : N) (c : N) : bool :=
  match digit_value c with
  | Some d => (d <? base)%N
  | None => false
  end.

(** The integer written by the digits [ds] in [base]. *)
Definition digits_value (base : N) (ds : jsstring) : N :=
  fold_left (fun acc c =>
               match digit_value c with
               | Some d => acc * base + d
               | None => acc
               end%N) ds 0%N.

(** NonDecimalIntegerLiteral: [0x], [0o] or [0b] (either case) and at
    least one digit of that base; no sign. *)
Definition radix_of_prefix (c : N) : option N :=
  (if (c =? 120) || (c =? 88) then Some 16
   else if (c =? 111) || (c =? 79) then Some 8
   else if (c =? 98) || (c =? 66) then Some 2
   else None)%N.

Definition parse_NonDecimalIntegerLiteral (s : jsstring) : option number :=
  match s with
  | z :: c :: d :: ds =>
      if (z =? 48)%N then
        match radix_of_prefix c with
        | Some base =>
            if forallb (is_digit base) (d :: ds)
            then Some (of_decimal false (digits_value base (d :: ds)) 0)
            else None
        | None => None
        end
      else None
  | _ => None
  end.

(** An optional sign: whether it is a minus, and what follows it. *)
Definition split_sign (s : jsstring) : bool * jsstring :=
  match s with
  | c :: s' =>
      if (c =? 45)%N then (true, s')
      else if (c =? 43)%N then (false, s')
      else (false, s)
  | [] => (false, s)
  end.

(** ExponentPart, when present: [e] or [E], an optional sign, and at least
    one decimal digit.  Returns the exponent; [s] must be consumed whole. *)
Definition parse_ExponentPart (s : jsstring) : option Z :=
  match s with
  | [] => Some 0
  | c :: s' =>
      if (c =? 101)%N || (c =? 69)%N then
        let '(neg, ds) := split_sign s' in
        match ds with
        | [] => None
        | _ =>
            if forallb (is_digit 10) ds
            then Some (let e := Z.of_N (digits_value 10 ds) in
                       if neg then - e else e)
            else None
        end
      else None
  end.

(** A fraction, when present: the dot and the digits after it.  Returns
    those digits and what follows them. *)
Definition split_fraction (s : jsstring) : option jsstring * jsstring :=
  match s with
  | c :: r =>
      if (c =? 46)%N
      then (Some (take_while (is_digit 10) r), drop_while (is_digit 10) r)
      else (None, s)
  | [] => (None, s)
  end.

(** StrUnsignedDecimalLiteral: [Infinity], or digits with an optional
    fraction and exponent, or a fraction starting with the dot. *)
Definition parse_StrUnsignedDecimalLiteral (neg : bool) (s : jsstring)
  : option number :=
  if jsstring_eqb s (lit "Infinity") then Some (Infinity neg)
  else
    let int := take_while (is_digit 10) s in
    let '(fraction, rest) := split_fraction (drop_while (is_digit 10) s) in
    let frac := match fraction with Some ds => ds | None => [] end in
    match int, frac with
    | [], [] => None
    | _, _ =>
        match parse_ExponentPart rest with
        | Some e =>
            Some (of_decimal neg (digits_value 10 (int ++ frac))
                             (e - Z.of_nat (length frac)))
        | None => None
        end
    end.

(** StrDecimalLiteral: an optional sign before the unsigned literal. *)
Definition parse_StrDecimalLiteral (s : jsstring) : option number :=
  let '(neg, s') := split_sign s in
  parse_StrUnsignedDecimalLiteral neg s'.

Definition parse_StrNumericLiteral (s : jsstring) : option number :=
  match parse_NonDecimalIntegerLiteral s with
  | Some n => Some n
  | None => parse_StrDecimalLiteral s
  end.

(** StringToNumber: white space alone is [+0]; a StrNumericLiteral between
    optional white space is its rounded value; anything else is [NaN]. *)
Definition StringToNumber (s : jsstring) : number :=
  match trim s with
  | [] => Zero false
  | t => match parse_StrNumericLiteral t with
         | Some n => n
         | None => NaN
         end
  end.

(** Unary minus. *)
Definition negate (x : number) : number :=
  match x with
  | NaN => NaN
  | Infinity s => Infinity (negb s)
  | Zero s => Zero (negb s)
  | Finite s m e => Finite (negb s) m e
  end.

(** ** Values

    The values the component handles: what [JSON.parse] builds (null,
    booleans, numbers, strings, arrays, plain objects; never a function)
    and [undefined], which reading a missing property yields.  An object
    is the list of its own properties; a name is looked up from the head
    of the list. *)

#[warnings="-register-all"]
Inductive value : Type :=
| Undefined
| Null
| Bool (b : bool)
| Num (n : number)
| Str (s : jsstring)
| Arr (elements : list value)
| Obj (properties : list (jsstring * value)).

Fixpoint own (props : list (jsstring * value)) (name : jsstring)
  : option value :=
  match props with
  | [] => None
  | (k, v) :: rest => if jsstring_eqb k name then Some v else own rest name
  end.

(** ** Exceptions *)

Inductive exn : Type :=
| TypeError
| SyntaxError
| NetworkError.

Inductive result (A : Type) : Type :=
| Ok (a : A)
| Throw (e : exn).

Arguments Ok {A} a.
Arguments Throw {A} e.

Definition bind {A B} (c : result A) (k : A -> result B) : result B :=
  match c with
  | Ok a => k a
  | Throw e => Throw e
  end.

Declare Scope js_scope.
Delimit Scope js_scope with js.
Notation "x <- c ;; k" := (bind c (fun x => k))
  (at level 61, c at next level, right associativity) : js_scope.

(** ** Property reads and [??]

    [Get v name] is [v.name] for a [name] that no built-in prototype
    defines, which is the case of every name the component reads on a
    well: reading on [undefined] or [null] throws, an object answers with
    its own property, every other value with [undefined]. *)
Definition Get (v : value) (name : jsstring) : result value :=
  match v with
  | Undefined | Null => Throw TypeError
  | Obj props =>
      Ok (match own props name with
          | Some x => x
          | None => Undefined
          end)
  | _ => Ok Undefined
  end.

(** [a ?? b]: [b] when [a] is [undefined] or [null], else [a]. *)
Definition coalesce (a b : value) : value :=
  match a with
  | Undefined | Null => b
  | _ => a
  end.

(** ** ToString and ToNumber *)

Section Coercions.

(** Number::toString, the shortest decimal text that reads back as the
    same Number; the component reaches it only through a coordinate that
    is an array holding numbers. *)
Variable NumberToString : number -> jsstring.

Local Open Scope js_scope.

(** ToString.  An array is joined with commas, [undefined] and [null]
    elements giving the empty string.  A plain object built by
    [JSON.parse] goes through OrdinaryToPrimitive: the inherited
    [toString] answers [[object Object]]; an own property of that name is
    not callable, and the inherited [valueOf] returns the object itself,
    so the conversion throws. *)
Fixpoint ToString (v : value) : result jsstring :=
  match v with
  | Undefined => Ok (lit "undefined")
  | Null => Ok (lit "null")
  | Bool true => Ok (lit "true")
  | Bool false => Ok (lit "false")
  | Num n => Ok (NumberToString n)
  | Str s => Ok s
  | Arr elements =>
      (fix join (l : list value) : result jsstring :=
         match l with
         | [] => Ok []
         | x :: rest =>
             s <- match x with
                  | Undefined | Null => Ok []
                  | _ => ToString x
                  end ;;
             match rest with
             | [] => Ok s
             | _ => r <- join rest ;; Ok (s ++ lit "," ++ r)
             end
         end) elements
  | Obj props =>
      match own props (lit "toString") with
      | Some _ => Throw TypeError
      | None => Ok (lit "[object Object]")
      end
  end.

(** ToNumber, which is what [Number(v)] computes.  An array or object is
    first made primitive with hint number; for the values above that ends
    in the same [toString] call as [ToString]. *)
Definition ToNumber (v : value) : result number :=
  match v with
  | Undefined => Ok NaN
  | Null => Ok (Zero false)
  | Bool true => Ok (of_decimal false 1 0)
  | Bool false => Ok (Zero false)
  | Num n => Ok n
  | Str s => Ok (StringToNumber s)
  | Arr _ | Obj _ => s <- ToString v ;; Ok (StringToNumber s)
  end.

End Coercions.

End JS.

(* ================================================================== *)
(** * Immer                                                            *)
(* ================================================================== *)

Module Immer.

Import JS.

(** [produce(base, recipe)] for a recipe that leaves its draft untouched:
    a returned value other than [undefined] replaces the state, and
    returning nothing keeps [base].  [recipe_result] is what the recipe
    returned, [Undefined] when it fell off its end. *)
Definition produce (base : value) (recipe_result : value) : value :=
  match recipe_result with
  | Undefined => base
  | v => v
  end.

End Immer.

(* ================================================================== *)
(** * The component                                                    *)
(* ================================================================== *)

Module App.

Import JS.
Local Open Scope string_scope.
Local Open Scope js_scope.

(** ** The reducer *)

(** [type Action = { type: "SET_WELLS"; payload: [] }].  The payload is
    whatever [response.json()] produced, and the [switch] has a default
    branch, so both fields are kept as the run time sees them. *)
Record Action : Type := { type : jsstring; payload : value }.

Definition SET_WELLS (data : value) : Action :=
  {| type := lit "SET_WELLS"; payload := data |}.

(** The recipe given to [useImmerReducer]: the [SET_WELLS] case returns
    the payload, the default case breaks out and returns nothing. *)
Definition reducer (_ : value) (action : Action) : value :=
  if jsstring_eqb (type action) (lit "SET_WELLS")
  then payload action
  else Undefined.

(** The second argument of [useImmerReducer]. *)
Definition initialState : value := Arr [].

(** What [dispatch(action)] does to the state cell: [useImmerReducer]
    runs the recipe under [produce]. *)
Definition reduce (wells : value) (action : Action) : value :=
  Immer.produce wells (reducer wells action).

(** ** The component's surroundings

    The state cell, the console, and the actions dispatched so far. *)

Inductive console_entry : Type :=
| console_log (message : jsstring) (arguments : list value)
| console_error (message : jsstring) (error : exn).

Record machine : Type := {
  wells : value;
  console : list console_entry;
  dispatched : list Action
}.

(** A computation of the component: it may write to the console, dispatch,
    and throw. *)
Definition M (A : Type) : Type := machine -> result A * machine.

Definition ret {A} (a : A) : M A := fun m => (Ok a, m).

Definition andThen {A B} (c : M A) (k : A -> M B) : M B :=
  fun m =>
    match c m with
    | (Ok a, m') => k a m'
    | (Throw e, m') => (Throw e, m')
    end.

(** [.catch(handler)] at the end of a promise chain. *)
Definition catch {A} (c : M A) (handler : exn -> M A) : M A :=
  fun m =>
    match c m with
    | (Ok a, m') => (Ok a, m')
    | (Throw e, m') => handler e m'
    end.

Definition lift {A} (r : result A) : M A := fun m => (r, m).

Declare Scope app_scope.
Delimit Scope app_scope with app.
Notation "x <-- c ;; k" := (andThen c (fun x => k))
  (at level 61, c at next level, right associativity) : app_scope.
Notation "c ;;; k" := (andThen c (fun _ => k))
  (at level 61, right associativity) : app_scope.

Definition log (message : jsstring) (arguments : list value) : M unit :=
  fun m => (Ok tt, {| wells := wells m;
                      console := console m ++ [console_log message arguments];
                      dispatched := dispatched m |}).

Definition log_error (message : jsstring) (error : exn) : M unit :=
  fun m => (Ok tt, {| wells := wells m;
                      console := console m ++ [console_error message error];
                      dispatched := dispatched m |}).

Definition dispatch (action : Action) : M unit :=
  fun m => (Ok tt, {| wells := reduce (wells m) action;
                      console := console m;
                      dispatched := dispatched m ++ [action] |}).

Definition read_wells : M value := fun m => (Ok (wells m), m).

(** ** The fetch effect *)

(** A response: its status code and what [response.json()] settles to,
    the parsed body or the [SyntaxError] of a body that is not JSON. *)
Record Response : Type := { status : Z; json : result value }.

(** What [fetch] settles to: a response, of any status, or the rejection
    of a request that got no response. *)
Definition fetched : Type := result Response.

(** The body of [useEffect], run once after the first render. *)
Definition useEffect (net : fetched) : M unit :=
  (log (lit "Fetching wells data...") [] ;;;
   catch
     (response <-- lift net ;;
      data <-- lift (json response) ;;
      log (lit "Wells data received:") [data] ;;;
      dispatch (SET_WELLS data))
     (fun error => log_error (lit "Error fetching wells data:") error))%app.

(** ** The element tree *)

(** The children of the popup's [div]. *)
Inductive node : Type :=
| strong (text : jsstring)
| text (s : jsstring)
| expr (v : value)
| br.

Record Marker : Type := {
  key : nat;
  position : number * number;
  Popup : list node
}.

(** The [MapContainer] element with what it carries: its props, the URL
    of the tile layer, and the markers.  The class names and the
    attribution text are left out. *)
Record MapContainer : Type := {
  center : number * number;
  zoom : number;
  scrollWheelZoom : bool;
  TileLayer : jsstring;
  markers : list Marker
}.

(** ** Well-shaped records

    [type Well]: [LATITUDE] and [LONGITUDE] are strings; each of the eight
    display fields is a string or is missing. *)

Definition required (props : list (jsstring * value)) (name : jsstring)
  : bool :=
  match own props name with
  | Some (Str _) => true
  | _ => false
  end.

Definition optional (props : list (jsstring * value)) (name : jsstring)
  : bool :=
  match own props name with
  | None | Some (Str _) => true
  | Some _ => false
  end.

Definition Well (v : value) : bool :=
  match v with
  | Obj props =>
      required props (lit "LATITUDE") && required props (lit "LONGITUDE")
      && optional props (lit "WELL_NAME")
      && optional props (lit "WELL_STATUS")
      && optional props (lit "WELL_TYPE")
      && optional props (lit "API_NO")
      && optional props (lit "OPERATOR")
      && optional props (lit "CLOSEST_CITY")
      && optional props (lit "OIL_PRODUCED")
      && optional props (lit "GAS_PRODUCED")
  | _ => false
  end.

Definition is_array (v : value) : bool :=
  match v with
  | Arr _ => true
  | _ => false
  end.

Section Render.

Variable NumberToString : number -> jsstring.

(** [Number(x)]. *)
Definition Number (x : value) : result number := ToNumber NumberToString x.

(** The callback of [wells.map]: the marker of one well. *)
Definition marker (well : value) (index : nat) : result Marker :=
  latitude <- Get well (lit "LATITUDE") ;;
  lat <- Number latitude ;;
  longitude <- Get well (lit "LONGITUDE") ;;
  lng <- Number longitude ;;
  WELL_NAME <- Get well (lit "WELL_NAME") ;;
  WELL_STATUS <- Get well (lit "WELL_STATUS") ;;
  WELL_TYPE <- Get well (lit "WELL_TYPE") ;;
  API_NO <- Get well (lit "API_NO") ;;
  OPERATOR <- Get well (lit "OPERATOR") ;;
  CLOSEST_CITY <- Get well (lit "CLOSEST_CITY") ;;
  OIL_PRODUCED <- Get well (lit "OIL_PRODUCED") ;;
  GAS_PRODUCED <- Get well (lit "GAS_PRODUCED") ;;
  Ok {| key := index;
        position := (lat, lng);
        Popup :=
          [ strong (lit "Well Name:"); text (lit " ");
            expr (coalesce WELL_NAME (Str (lit "Unknown"))); br;
            strong (lit "Status:"); text (lit " ");
            expr (coalesce WELL_STATUS (Str (lit "Unknown"))); br;
            strong (lit "Type:"); text (lit " ");
            expr (coalesce WELL_TYPE (Str (lit "Unknown"))); br;
            strong (lit "API No:"); text (lit " ");
            expr (coalesce API_NO (Str (lit "Unknown"))); br;
            strong (lit "Operator:"); text (lit " ");
            expr (coalesce OPERATOR (Str (lit "Unknown"))); br;
            strong (lit "Closest City:"); expr (Str (lit " "));
            expr (coalesce CLOSEST_CITY (Str (lit "Unknown"))); br;
            strong (lit "Oil Produced:"); expr (Str (lit " "));
            expr (coalesce OIL_PRODUCED (Str (lit "Unknown"))); br;
            strong (lit "Gas Produced:"); expr (Str (lit " "));
            expr (coalesce GAS_PRODUCED (Str (lit "Unknown"))) ] |}.

(** [Array.prototype.map] with the callback above, the index counting
    from [index]. *)
Fixpoint map_from (index : nat) (elements : list value)
  : result (list Marker) :=
  match elements with
  | [] => Ok []
  | well :: rest =>
      m <- marker well index ;;
      ms <- map_from (S index) rest ;;
      Ok (m :: ms)
  end.

(** [wells.map(...)].  Only an array has a callable [map]: reading it on
    [null] throws, and on every other value the call of a property that is
    missing or not a function throws. *)
Definition wells_map (wells : value) : result (list Marker) :=
  match wells with
  | Arr elements => map_from 0 elements
  | _ => Throw TypeError
  end.

(** One call of the function component: the log line, then the tree. *)
Definition App : M MapContainer :=
  (log (lit "App component rendered") [] ;;;
   wells <-- read_wells ;;
   ms <-- lift (wells_map wells) ;;
   ret {| center := (of_decimal false 4821 (-2),
                     negate (of_decimal false 1036 (-1)));
          zoom := of_decimal false 11 0;
          scrollWheelZoom := false;
          TileLayer := lit "https://{s}.tile.openstreetmap.org/{z}/{x}/{y}.png";
          markers := ms |})%app.

(** The life of one mounted component: the first render on the initial
    state, the effect, and the render React schedules when the effect
    dispatched.  The dispatched state is never the initial array itself
    (it is a value [JSON.parse] has just built), so React does not bail
    out of that render. *)
Definition boot : machine :=
  {| wells := initialState; console := []; dispatched := [] |}.

Definition session (net : fetched) : M MapContainer :=
  (first <-- App ;;
   useEffect net ;;;
   fun m => match dispatched m with
            | [] => ret first m
            | _ => App m
            end)%app.

End Render.

End App.

(* ================================================================== *)
(** * The StringNumericLiteral grammar                                 *)
(* ================================================================== *)

(** The grammar of ECMAScript for the strings [Number] reads as a
    number, stated on its own so that the parser of [JS] can be checked
    against it. *)

Module Grammar.

Import JS.
Local Open Scope string_scope.
Local Open Scope N_scope.

Definition StrWhiteSpace (s : jsstring) : Prop :=
  Forall (fun c => is_whitespace c = true) s.

Definition DecimalDigit (c : N) : Prop := 48 <= c <= 57.

Definition HexDigit (c : N) : Prop :=
  48 <= c <= 57 \/ 97 <= c <= 102 \/ 65 <= c <= 70.

Definition OctalDigit (c : N) : Prop := 48 <= c <= 55.

Definition BinaryDigit (c : N) : Prop := c = 48 \/ c = 49.

(** One or more symbols of a class. *)
Definition some_of (P : N -> Prop) (s : jsstring) : Prop :=
  s <> [] /\ Forall P s.

Definition DecimalDigits : jsstring -> Prop := some_of DecimalDigit.

Inductive SignedInteger : jsstring -> Prop :=
| SignedInteger_plain ds : DecimalDigits ds -> SignedInteger ds
| SignedInteger_plus ds : DecimalDigits ds -> SignedInteger (43 :: ds)
| SignedInteger_minus ds : DecimalDigits ds -> SignedInteger (45 :: ds).

Inductive ExponentPart : jsstring -> Prop :=
| ExponentPart_e i : SignedInteger i -> ExponentPart (101 :: i)
| ExponentPart_E i : SignedInteger i -> ExponentPart (69 :: i).

(** An optional part: absent, or derived by [P]. *)
Definition opt (P : jsstring -> Prop) (s : jsstring) : Prop :=
  s = [] \/ P s.

Inductive StrUnsignedDecimalLiteral : jsstring -> Prop :=
| Unsigned_Infinity :
    StrUnsignedDecimalLiteral (lit "Infinity")
| Unsigned_point int frac exp :
    DecimalDigits int -> opt DecimalDigits frac -> opt ExponentPart exp ->
    StrUnsignedDecimalLiteral (int ++ 46 :: frac ++ exp)
| Unsigned_fraction frac exp :
    DecimalDigits frac -> opt ExponentPart exp ->
    StrUnsignedDecimalLiteral (46 :: frac ++ exp)
| Unsigned_integer int exp :
    DecimalDigits int -> opt ExponentPart exp ->
    StrUnsignedDecimalLiteral (int ++ exp).

Inductive StrDecimalLiteral : jsstring -> Prop :=
| Decimal_unsigned s :
    StrUnsignedDecimalLiteral s -> StrDecimalLiteral s
| Decimal_plus s :
    StrUnsignedDecimalLiteral s -> StrDecimalLiteral (43 :: s)
| Decimal_minus s :
    StrUnsignedDecimalLiteral s -> StrDecimalLiteral (45 :: s).

Inductive NonDecimalIntegerLiteral : jsstring -> Prop :=
| Binary p ds :
    p = 98 \/ p = 66 -> some_of BinaryDigit ds ->
    NonDecimalIntegerLiteral (48 :: p :: ds)
| Octal p ds :
    p = 111 \/ p = 79 -> some_of OctalDigit ds ->
    NonDecimalIntegerLiteral (48 :: p :: ds)
| Hex p ds :
    p = 120 \/ p = 88 -> some_of HexDigit ds ->
    NonDecimalIntegerLiteral (48 :: p :: ds).

Definition StrNumericLiteral (s : jsstring) : Prop :=
  StrDecimalLiteral s \/ NonDecimalIntegerLiteral s.

(** StringNumericLiteral: optional white space, or a StrNumericLiteral
    between optional white space. *)
Definition StringNumericLiteral (s : jsstring) : Prop :=
  exists before t after,
    s = before ++ t ++ after /\
    StrWhiteSpace before /\ StrWhiteSpace after /\
    opt StrNumericLiteral t.

End Grammar.

(* ================================================================== *)
(** * What a popup line is to show                                     *)
(* ================================================================== *)

Module Display.

Import JS.
Local Open Scope string_scope.

(** The record has the field [name] with the string [s] as its value:
    the pair is among the properties, and no property before it bears
    that name. *)
Definition has_field (props : list (jsstring * value)) (name : jsstring)
           (s : jsstring) : Prop :=
  exists before after,
    props = before ++ (name, Str s) :: after /\
    ~ In name (map fst before).

(** The record has no property of that name. *)
Definition lacks_field (props : list (jsstring * value)) (name : jsstring)
  : Prop :=
  ~ In name (map fst props).

(** The text expected after the label of the display field [name] of a
    record: the field's string when the record has it, the fallback when
    the record lacks the field. *)
Definition shows (props : list (jsstring * value)) (name : jsstring)
           (v : value) : Prop :=
  (forall s, has_field props name s -> v = Str s) /\
  (lacks_field props name -> v = Str (lit "Unknown")).

End Display.

(* ================================================================== *)
(** * Sample inputs                                                    *)
(* ================================================================== *)

Module Samples.

Import JS App.
Local Open Scope string_scope.

(** [{"LATITUDE":"48.21","LONGITUDE":"-103.6","WELL_NAME":"Well A"}] *)
Definition well_A_props : list (jsstring * value) :=
  [(lit "LATITUDE", Str (lit "48.21"));
   (lit "LONGITUDE", Str (lit "-103.6"));
   (lit "WELL_NAME", Str (lit "Well A"))].

Definition well_A : value := Obj well_A_props.

(** [{"LATITUDE":"","LONGITUDE":"  "}] *)
Definition blank_props : list (jsstring * value) :=
  [(lit "LATITUDE", Str []); (lit "LONGITUDE", Str (lit "  "))].

(** [{"LATITUDE":"not-a-number","LONGITUDE":"-103.6"}] *)
Definition not_a_number_props : list (jsstring * value) :=
  [(lit "LATITUDE", Str (lit "not-a-number"));
   (lit "LONGITUDE", Str (lit "-103.6"))].

(** [{"error":"database unavailable"}], and a 500 response carrying it. *)
Definition error_body : value :=
  Obj [(lit "error", Str (lit "database unavailable"))].

Definition error_500 : Response :=
  {| status := 500; json := Ok error_body |}.

(** An action the reducer has no case for. *)
Definition CLEAR_WELLS : Action :=
  {| type := lit "CLEAR_WELLS"; payload := Arr [] |}.

(** A request that got no response. *)
Definition offline : fetched := Throw NetworkError.

(** Stands for Number::toString in runs that never call it. *)
Definition unused : number -> jsstring := fun _ => [].

End Samples.

(* ================================================================== *)
(** * The fields the component reads, and more sample inputs           *)
(* ================================================================== *)

Module Fields.

Import JS App.
Local Open Scope string_scope.

(** The ten property names the marker callback reads on a well. *)
Definition read_by_marker : list jsstring :=
  [lit "LATITUDE"; lit "LONGITUDE"; lit "WELL_NAME"; lit "WELL_STATUS";
   lit "WELL_TYPE"; lit "API_NO"; lit "OPERATOR"; lit "CLOSEST_CITY";
   lit "OIL_PRODUCED"; lit "GAS_PRODUCED"].

(** The eight display fields, each with the place of its value among the
    children of the popup's [div] (counting from 0). *)
Definition displayed_at : list (jsstring * nat) :=
  [(lit "WELL_NAME", 2); (lit "WELL_STATUS", 6); (lit "WELL_TYPE", 10);
   (lit "API_NO", 14); (lit "OPERATOR", 18); (lit "CLOSEST_CITY", 22);
   (lit "OIL_PRODUCED", 26); (lit "GAS_PRODUCED", 30)].

(** Running the effect once per settled fetch, in order, on one state
    cell. *)
Definition loads (nets : list fetched) (m : machine) : machine :=
  fold_left (fun m net => snd (useEffect net m)) nets m.

(** Well A with a property the component does not read. *)
Definition well_A_with_county : list (jsstring * value) :=
  Samples.well_A_props ++ [(lit "COUNTY", Str (lit "Williams"))].

(** [{"LATITUDE":" 48.21 ","LONGITUDE":"-103.6  "}], the first padded
    with a space on each side, the second with two spaces after. *)
Definition padded_props : list (jsstring * value) :=
  [(lit "LATITUDE", Str (lit " " ++ lit "48.21" ++ lit " "));
   (lit "LONGITUDE", Str ([] ++ lit "-103.6" ++ lit "  "))].

(** [{"LATITUDE":null,"LONGITUDE":-103.6,"WELL_NAME":null,
      "WELL_TYPE":""}] *)
Definition loose_props : list (jsstring * value) :=
  [(lit "LATITUDE", Null);
   (lit "LONGITUDE", Num (negate (of_decimal false 1036 (-1))));
   (lit "WELL_NAME", Null);
   (lit "WELL_TYPE", Str [])].

(** [{"LATITUDE":{"toString":"48.21"},"LONGITUDE":"-103.6"}] *)
Definition object_latitude_props : list (jsstring * value) :=
  [(lit "LATITUDE", Obj [(lit "toString", Str (lit "48.21"))]);
   (lit "LONGITUDE", Str (lit "-103.6"))].

End Fields.

(* ================================================================== *)
(** * The parser against the grammar                                   *)
(* ================================================================== *)

Module ParserFacts.

Import JS Grammar.
Local Open Scope string_scope.

Lemma take_drop_while (f : N -> bool) (s : jsstring) :
  take_while f s ++ drop_while f s = s.
Proof.
  induction s as [|c s IH]; simpl; [reflexivity|].
  destruct (f c); simpl; [now rewrite IH | reflexivity].
Qed.

Lemma take_while_Forall (f : N -> bool) (s : jsstring) :
  Forall (fun c => f c = true) (take_while f s).
Proof.
  induction s as [|c s IH]; simpl; [constructor|].
  destruct (f c) eqn:E; constructor; assumption.
Qed.

Lemma forallb_Forall (f : N -> bool) (s : jsstring) :
  forallb f s = true -> Forall (fun c => f c = true) s.
Proof. intros H. apply Forall_forall. now apply forallb_forall. Qed.

Lemma Forall_forallb (f : N -> bool) (s : jsstring) :
  Forall (fun c => f c = true) s -> forallb f s = true.
Proof. intros H. apply forallb_forall. now apply Forall_forall. Qed.

Lemma drop_while_all (f : N -> bool) (s : jsstring) :
  forallb f s = true -> drop_while f s = [].
Proof.
  induction s as [|c s IH]; simpl; [reflexivity|].
  intros H. apply andb_true_iff in H as [Hc Hs]. now rewrite Hc, IH.
Qed.

(** [trim] removes white space at both ends and nothing else. *)
Lemma trim_decompose (s : jsstring) :
  exists before after,
    s = before ++ trim s ++ after /\
    StrWhiteSpace before /\ StrWhiteSpace after.
Proof.
  exists (take_while is_whitespace s).
  exists (rev (take_while is_whitespace (rev (drop_while is_whitespace s)))).
  split; [|split].
  - unfold trim. rewrite <- rev_app_distr, take_drop_while, rev_involutive.
    now rewrite take_drop_while.
  - apply take_while_Forall.
  - apply Forall_rev, take_while_Forall.
Qed.

Lemma trim_blank (s : jsstring) :
  forallb is_whitespace s = true -> trim s = [].
Proof. intros H. unfold trim. rewrite (drop_while_all _ _ H). reflexivity. Qed.

(** *** Digits *)

Ltac digit_cases c :=
  unfold is_digit, digit_value;
  destruct (48 <=? c)%N eqn:?, (c <=? 57)%N eqn:?,
           (97 <=? c)%N eqn:?, (c <=? 102)%N eqn:?,
           (65 <=? c)%N eqn:?, (c <=? 70)%N eqn:?;
  cbn [andb]; try discriminate;
  repeat match goal with
         | H : (_ <=? _)%N = true |- _ => apply N.leb_le in H
         | H : (_ <=? _)%N = false |- _ => apply N.leb_gt in H
         end;
  intros Hlt; apply N.ltb_lt in Hlt.

Lemma is_digit_10 (c : N) : is_digit 10 c = true -> DecimalDigit c.
Proof. digit_cases c; unfold DecimalDigit; lia. Qed.

Lemma is_digit_16 (c : N) : is_digit 16 c = true -> HexDigit c.
Proof. digit_cases c; unfold HexDigit; lia. Qed.

Lemma is_digit_8 (c : N) : is_digit 8 c = true -> OctalDigit c.
Proof. digit_cases c; unfold OctalDigit; lia. Qed.

Lemma is_digit_2 (c : N) : is_digit 2 c = true -> BinaryDigit c.
Proof. digit_cases c; unfold BinaryDigit; lia. Qed.

Lemma digits_of_run (base : N) (P : N -> Prop) (s : jsstring) :
  (forall c, is_digit base c = true -> P c) ->
  Forall (fun c => is_digit base c = true) s -> s <> [] -> some_of P s.
Proof.
  intros HP Hall Hne. split; [assumption|].
  eapply Forall_impl; [|exact Hall]. exact HP.
Qed.

Lemma run_is_DecimalDigits (s : jsstring) :
  Forall (fun c => is_digit 10 c = true) s -> s <> [] -> DecimalDigits s.
Proof. apply digits_of_run, is_digit_10. Qed.

(** *** The parts of a literal *)

Lemma split_sign_sound (s : jsstring) (neg : bool) (s' : jsstring) :
  split_sign s = (neg, s') ->
  s = s' \/ s = 43%N :: s' \/ s = 45%N :: s'.
Proof.
  unfold split_sign. destruct s as [|c r].
  - intros [= _ <-]. now left.
  - destruct (N.eqb_spec c 45) as [->|_].
    + intros [= _ <-]. now right; right.
    + destruct (N.eqb_spec c 43) as [->|_].
      * intros [= _ <-]. now right; left.
      * intros [= _ <-]. now left.
Qed.

Lemma parse_ExponentPart_sound (s : jsstring) (e : Z) :
  parse_ExponentPart s = Some e -> opt ExponentPart s.
Proof.
  unfold parse_ExponentPart. destruct s as [|c s']; [now left|].
  destruct ((c =? 101)%N || (c =? 69)%N) eqn:Hc; [|discriminate].
  destruct (split_sign s') as [neg ds] eqn:Hsign.
  destruct ds as [|d ds]; [discriminate|].
  destruct (forallb (is_digit 10) (d :: ds)) eqn:Hall; [|discriminate].
  intros _. right.
  assert (Hds : DecimalDigits (d :: ds)).
  { apply run_is_DecimalDigits; [now apply forallb_Forall | discriminate]. }
  assert (Hint : SignedInteger s').
  { destruct (split_sign_sound _ _ _ Hsign) as [-> | [-> | ->]];
      now constructor. }
  apply orb_true_iff in Hc as [Hc | Hc]; apply N.eqb_eq in Hc; subst c;
    now constructor.
Qed.

Lemma split_fraction_sound (s : jsstring) (fraction : option jsstring)
      (rest : jsstring) :
  split_fraction s = (fraction, rest) ->
  match fraction with
  | Some ds =>
      s = 46%N :: ds ++ rest /\ Forall (fun c => is_digit 10 c = true) ds
  | None => s = rest
  end.
Proof.
  unfold split_fraction. destruct s as [|c r].
  - now intros [= <- <-].
  - destruct (N.eqb_spec c 46) as [->|_].
    + intros [= <- <-]. split.
      * now rewrite take_drop_while.
      * apply take_while_Forall.
    + now intros [= <- <-].
Qed.

Lemma parse_StrUnsignedDecimalLiteral_sound (neg : bool) (s : jsstring)
      (n : number) :
  parse_StrUnsignedDecimalLiteral neg s = Some n ->
  StrUnsignedDecimalLiteral s.
Proof.
  unfold parse_StrUnsignedDecimalLiteral, jsstring_eqb.
  destruct (list_eq_dec N.eq_dec s (lit "Infinity")) as [->|_];
    [intros _; constructor|].
  pose proof (take_drop_while (is_digit 10) s) as Hs.
  pose proof (take_while_Forall (is_digit 10) s) as Hint.
  destruct (split_fraction (drop_while (is_digit 10) s))
    as [fraction rest] eqn:Hfrac.
  apply split_fraction_sound in Hfrac.
  set (int := take_while (is_digit 10) s) in *.
  destruct fraction as [frac|].
  - destruct Hfrac as [Hdrop Hfrac]. rewrite Hdrop in Hs.
    destruct int as [|i int'] eqn:Ei.
    + destruct frac as [|f frac']; [discriminate|].
      destruct (parse_ExponentPart rest) as [e|] eqn:He; [|discriminate].
      intros _. rewrite <- Hs.
      apply (Unsigned_fraction (f :: frac') rest).
      * apply run_is_DecimalDigits; [assumption | discriminate].
      * eapply parse_ExponentPart_sound; eassumption.
    + destruct (parse_ExponentPart rest) as [e|] eqn:He; [|discriminate].
      intros _. rewrite <- Hs.
      apply Unsigned_point.
      * apply run_is_DecimalDigits; [assumption | discriminate].
      * destruct frac as [|f frac']; [now left | right].
        apply run_is_DecimalDigits; [assumption | discriminate].
      * eapply parse_ExponentPart_sound; eassumption.
  - rewrite Hfrac in Hs.
    destruct int as [|i int'] eqn:Ei; [discriminate|].
    destruct (parse_ExponentPart rest) as [e|] eqn:He; [|discriminate].
    intros _. rewrite <- Hs.
    apply Unsigned_integer.
    + apply run_is_DecimalDigits; [assumption | discriminate].
    + eapply parse_ExponentPart_sound; eassumption.
Qed.

Lemma parse_StrDecimalLiteral_sound (s : jsstring) (n : number) :
  parse_StrDecimalLiteral s = Some n -> StrDecimalLiteral s.
Proof.
  unfold parse_StrDecimalLiteral.
  destruct (split_sign s) as [neg s'] eqn:Hsign. intros H.
  apply parse_StrUnsignedDecimalLiteral_sound in H.
  destruct (split_sign_sound _ _ _ Hsign) as [-> | [-> | ->]];
    now constructor.
Qed.

Lemma radix_of_prefix_sound (c base : N) :
  radix_of_prefix c = Some base ->
  (base = 16 /\ (c = 120 \/ c = 88))%N \/
  (base = 8 /\ (c = 111 \/ c = 79))%N \/
  (base = 2 /\ (c = 98 \/ c = 66))%N.
Proof.
  unfold radix_of_prefix.
  destruct (N.eqb_spec c 120); [intros [= <-]; tauto|].
  destruct (N.eqb_spec c 88); [intros [= <-]; tauto|].
  destruct (N.eqb_spec c 111); [intros [= <-]; tauto|].
  destruct (N.eqb_spec c 79); [intros [= <-]; tauto|].
  destruct (N.eqb_spec c 98); [intros [= <-]; tauto|].
  destruct (N.eqb_spec c 66); [intros [= <-]; tauto|].
  discriminate.
Qed.

Lemma parse_NonDecimalIntegerLiteral_sound (s : jsstring) (n : number) :
  parse_NonDecimalIntegerLiteral s = Some n -> NonDecimalIntegerLiteral s.
Proof.
  unfold parse_NonDecimalIntegerLiteral.
  destruct s as [|z [|c [|d ds]]]; try discriminate.
  destruct (N.eqb_spec z 48) as [->|_]; [|discriminate].
  destruct (radix_of_prefix c) as [base|] eqn:Hbase; [|discriminate].
  destruct (forallb (is_digit base) (d :: ds)) eqn:Hall; [|discriminate].
  intros _. apply forallb_Forall in Hall.
  destruct (radix_of_prefix_sound _ _ Hbase)
    as [[-> Hc] | [[-> Hc] | [-> Hc]]].
  - apply Hex; [assumption|].
    eapply digits_of_run; eauto using is_digit_16. discriminate.
  - apply Octal; [assumption|].
    eapply digits_of_run; eauto using is_digit_8. discriminate.
  - apply Binary; [assumption|].
    eapply digits_of_run; eauto using is_digit_2. discriminate.
Qed.

Lemma parse_StrNumericLiteral_sound (s : jsstring) (n : number) :
  parse_StrNumericLiteral s = Some n -> StrNumericLiteral s.
Proof.
  unfold parse_StrNumericLiteral.
  destruct (parse_NonDecimalIntegerLiteral s) as [k|] eqn:Hk.
  - intros _. right. eapply parse_NonDecimalIntegerLiteral_sound; eauto.
  - intros H. left. eapply parse_StrDecimalLiteral_sound; eauto.
Qed.

(** Whatever [StringToNumber] does not turn into [NaN] is derived by the
    grammar. *)
Lemma StringToNumber_sound (s : jsstring) :
  StringToNumber s <> NaN -> StringNumericLiteral s.
Proof.
  unfold StringToNumber. intros H.
  destruct (trim_decompose s) as (before & after & Hs & Hb & Ha).
  exists before, (trim s), after. repeat split; try assumption.
  destruct (trim s) as [|c t]; [now left | right].
  destruct (parse_StrNumericLiteral (c :: t)) as [n|] eqn:Hn;
    [|congruence].
  eapply parse_StrNumericLiteral_sound; eauto.
Qed.

(** A string outside the grammar coerces to [NaN]. *)
Lemma StringToNumber_not_numeric (s : jsstring) :
  ~ StringNumericLiteral s -> StringToNumber s = NaN.
Proof.
  intros H. destruct (number_eq_dec (StringToNumber s) NaN) as [E|E];
    [assumption|].
  elim H. now apply StringToNumber_sound.
Qed.

(** White space alone coerces to [+0]. *)
Lemma StringToNumber_blank (s : jsstring) :
  forallb is_whitespace s = true -> StringToNumber s = Zero false.
Proof. intros H. unfold StringToNumber. now rewrite trim_blank. Qed.

(** ** Every literal of the grammar is read as a number *)

(** *** Digits, the other way round *)

Ltac compare_all :=
  repeat match goal with
         | |- context [(?a <=? ?b)%N] => destruct (N.leb_spec a b)
         | |- context [(?a =? ?b)%N] => destruct (N.eqb_spec a b)
         end.

Lemma DecimalDigit_is_digit (c : N) : DecimalDigit c -> is_digit 10 c = true.
Proof.
  unfold DecimalDigit, is_digit, digit_value. intros H.
  compare_all; cbn [andb]; try lia; apply N.ltb_lt; lia.
Qed.

Lemma HexDigit_is_digit (c : N) : HexDigit c -> is_digit 16 c = true.
Proof.
  unfold HexDigit, is_digit, digit_value. intros H.
  compare_all; cbn [andb]; try lia; apply N.ltb_lt; lia.
Qed.

Lemma OctalDigit_is_digit (c : N) : OctalDigit c -> is_digit 8 c = true.
Proof.
  unfold OctalDigit, is_digit, digit_value. intros H.
  compare_all; cbn [andb]; try lia; apply N.ltb_lt; lia.
Qed.

Lemma BinaryDigit_is_digit (c : N) : BinaryDigit c -> is_digit 2 c = true.
Proof. intros [-> | ->]; reflexivity. Qed.

Lemma digits_run (P : N -> Prop) (base : N) (s : jsstring) :
  (forall c, P c -> is_digit base c = true) ->
  Forall P s -> Forall (fun c => is_digit base c = true) s.
Proof. intros HP. apply Forall_impl. exact HP. Qed.

Lemma DecimalDigits_run (s : jsstring) :
  DecimalDigits s -> Forall (fun c => is_digit 10 c = true) s.
Proof. intros [_ H]. revert H. apply digits_run, DecimalDigit_is_digit. Qed.

(** *** Where a run of digits stops *)

Lemma take_while_app (f : N -> bool) (a rest : jsstring) :
  Forall (fun c => f c = true) a -> stops f rest ->
  take_while f (a ++ rest) = a.
Proof.
  intros Ha Hrest. induction Ha as [|c a Hc _ IH]; cbn [app take_while].
  - destruct rest as [|r rest]; [reflexivity|].
    cbn [stops] in Hrest. cbn [take_while]. now rewrite Hrest.
  - now rewrite Hc, IH.
Qed.

Lemma drop_while_app (f : N -> bool) (a rest : jsstring) :
  Forall (fun c => f c = true) a -> stops f rest ->
  drop_while f (a ++ rest) = rest.
Proof.
  intros Ha Hrest. induction Ha as [|c a Hc _ IH]; cbn [app drop_while].
  - destruct rest as [|r rest]; [reflexivity|].
    cbn [stops] in Hrest. cbn [drop_while]. now rewrite Hrest.
  - now rewrite Hc, IH.
Qed.

(** *** The parts of a literal *)

Lemma of_decimal_not_NaN (neg : bool) (m : N) (e10 : Z) :
  of_decimal neg m e10 <> NaN.
Proof.
  assert (H : forall p q, RoundMV neg p q <> NaN).
  { intros p q. unfold RoundMV.
    destruct (_ =? 2 ^ 53)%Z; destruct (971 <? _)%Z; try discriminate;
      match goal with |- context [match ?x with _ => _ end] =>
        destruct x end; discriminate. }
  unfold of_decimal. destruct m; [discriminate|].
  destruct (0 <=? e10)%Z; apply H.
Qed.

Lemma DecimalDigits_head (ds : jsstring) :
  DecimalDigits ds -> exists c r, ds = c :: r /\ DecimalDigit c.
Proof.
  intros [Hne Hall]. destruct ds as [|c r]; [contradiction|].
  exists c, r. split; [reflexivity|]. now inversion Hall.
Qed.

Lemma split_sign_unsigned (s : jsstring) :
  (exists c r, s = c :: r /\ c <> 45%N /\ c <> 43%N) ->
  split_sign s = (false, s).
Proof.
  intros (c & r & -> & H45 & H43). unfold split_sign.
  destruct (N.eqb_spec c 45); [contradiction|].
  destruct (N.eqb_spec c 43); [contradiction|]. reflexivity.
Qed.

Lemma split_sign_digits (ds : jsstring) :
  DecimalDigits ds -> split_sign ds = (false, ds).
Proof.
  intros H. apply split_sign_unsigned.
  destruct (DecimalDigits_head ds H) as (c & r & -> & Hc).
  exists c, r. unfold DecimalDigit in Hc. repeat split; lia.
Qed.

Lemma parse_digits (sign : bool) (ds : jsstring) :
  DecimalDigits ds ->
  exists e,
    match ds with
    | [] => None
    | _ :: _ =>
        if forallb (is_digit 10) ds
        then Some (let e := Z.of_N (digits_value 10 ds) in
                   if sign then (- e)%Z else e)
        else None
    end = Some e.
Proof.
  intros H. pose proof (DecimalDigits_run ds H) as Hrun.
  apply Forall_forallb in Hrun. destruct H as [Hne _].
  destruct ds as [|d ds]; [contradiction|]. rewrite Hrun.
  eexists; reflexivity.
Qed.

Lemma parse_SignedInteger (i : jsstring) :
  SignedInteger i ->
  exists e,
    (let '(neg, ds) := split_sign i in
     match ds with
     | [] => None
     | _ :: _ =>
         if forallb (is_digit 10) ds
         then Some (let e := Z.of_N (digits_value 10 ds) in
                    if neg then (- e)%Z else e)
         else None
     end) = Some e.
Proof.
  intros [ds H | ds H | ds H].
  - rewrite (split_sign_digits ds H). exact (parse_digits false ds H).
  - exact (parse_digits false ds H).
  - exact (parse_digits true ds H).
Qed.

Lemma parse_ExponentPart_complete (exp : jsstring) :
  opt ExponentPart exp -> exists e, parse_ExponentPart exp = Some e.
Proof.
  intros [-> | [i H | i H]].
  - exists 0%Z. reflexivity.
  - unfold parse_ExponentPart. cbn [N.eqb Pos.eqb orb].
    now apply parse_SignedInteger.
  - unfold parse_ExponentPart. cbn [N.eqb Pos.eqb orb].
    now apply parse_SignedInteger.
Qed.

(** An exponent part, a dot, or nothing: a run of decimal digits stops
    there. *)
Lemma ExponentPart_stops (exp : jsstring) :
  opt ExponentPart exp -> stops (is_digit 10) exp.
Proof. intros [-> | [i _ | i _]]; reflexivity. Qed.

Lemma ExponentPart_has_no_dot (exp : jsstring) :
  opt ExponentPart exp -> split_fraction exp = (None, exp).
Proof. intros [-> | [i _ | i _]]; reflexivity. Qed.

Lemma not_Infinity (s : jsstring) :
  (exists c r, s = c :: r /\ c <> 73%N) ->
  jsstring_eqb s (lit "Infinity") = false.
Proof.
  intros (c & r & -> & Hc). unfold jsstring_eqb.
  destruct (list_eq_dec N.eq_dec (c :: r) (lit "Infinity")) as [E|_];
    [|reflexivity].
  change (lit "Infinity") with (73%N :: lit "nfinity") in E.
  injection E as E _. contradiction.
Qed.

Lemma opt_DecimalDigits_run (frac : jsstring) :
  opt DecimalDigits frac -> Forall (fun c => is_digit 10 c = true) frac.
Proof. intros [-> | H]; [constructor | now apply DecimalDigits_run]. Qed.

Lemma parse_StrUnsignedDecimalLiteral_complete (neg : bool) (s : jsstring) :
  StrUnsignedDecimalLiteral s ->
  exists n, parse_StrUnsignedDecimalLiteral neg s = Some n /\ n <> NaN.
Proof.
  intros [ | int frac exp Hint Hfrac Hexp
           | frac exp Hfrac Hexp
           | int exp Hint Hexp ].
  - exists (Infinity neg). split; [reflexivity | discriminate].
  - unfold parse_StrUnsignedDecimalLiteral.
    destruct (DecimalDigits_head int Hint) as (c & r & -> & Hc).
    rewrite not_Infinity
      by (exists c; eexists; split;
          [reflexivity | unfold DecimalDigit in Hc; lia]).
    pose proof (DecimalDigits_run _ Hint) as Hrun.
    rewrite (take_while_app _ _ _ Hrun), (drop_while_app _ _ _ Hrun)
      by reflexivity.
    cbn [split_fraction N.eqb Pos.eqb].
    pose proof (opt_DecimalDigits_run frac Hfrac) as Hfrun.
    pose proof (ExponentPart_stops exp Hexp) as Hstop.
    rewrite (take_while_app _ _ _ Hfrun Hstop),
            (drop_while_app _ _ _ Hfrun Hstop).
    destruct (parse_ExponentPart_complete exp Hexp) as [e ->].
    eexists. split; [reflexivity | apply of_decimal_not_NaN].
  - unfold parse_StrUnsignedDecimalLiteral.
    rewrite not_Infinity
      by (exists 46%N; eexists; split; [reflexivity | discriminate]).
    cbn [take_while drop_while is_digit digit_value N.leb N.compare
         Pos.compare Pos.compare_cont andb split_fraction N.eqb Pos.eqb].
    pose proof (DecimalDigits_run _ Hfrac) as Hfrun.
    pose proof (ExponentPart_stops exp Hexp) as Hstop.
    rewrite (take_while_app _ _ _ Hfrun Hstop),
            (drop_while_app _ _ _ Hfrun Hstop).
    destruct (DecimalDigits_head frac Hfrac) as (c & r & -> & _).
    destruct (parse_ExponentPart_complete exp Hexp) as [e ->].
    eexists. split; [reflexivity | apply of_decimal_not_NaN].
  - unfold parse_StrUnsignedDecimalLiteral.
    destruct (DecimalDigits_head int Hint) as (c & r & -> & Hc).
    rewrite not_Infinity
      by (exists c; eexists; split;
          [reflexivity | unfold DecimalDigit in Hc; lia]).
    pose proof (DecimalDigits_run _ Hint) as Hrun.
    pose proof (ExponentPart_stops exp Hexp) as Hstop.
    rewrite (take_while_app _ _ _ Hrun Hstop),
            (drop_while_app _ _ _ Hrun Hstop).
    rewrite (ExponentPart_has_no_dot exp Hexp).
    destruct (parse_ExponentPart_complete exp Hexp) as [e ->].
    eexists. split; [reflexivity | apply of_decimal_not_NaN].
Qed.

Lemma StrUnsignedDecimalLiteral_head (s : jsstring) :
  StrUnsignedDecimalLiteral s ->
  exists c r, s = c :: r /\ c <> 45%N /\ c <> 43%N.
Proof.
  intros [ | int frac exp Hint _ _ | frac exp _ _ | int exp Hint _ ].
  - eexists; eexists. split; [reflexivity|]. split; discriminate.
  - destruct (DecimalDigits_head int Hint) as (c & r & -> & Hc).
    exists c; eexists. split; [reflexivity|].
    unfold DecimalDigit in Hc. split; lia.
  - eexists; eexists. split; [reflexivity|]. split; discriminate.
  - destruct (DecimalDigits_head int Hint) as (c & r & -> & Hc).
    exists c; eexists. split; [reflexivity|].
    unfold DecimalDigit in Hc. split; lia.
Qed.

Lemma parse_StrDecimalLiteral_complete (s : jsstring) :
  StrDecimalLiteral s ->
  exists n, parse_StrDecimalLiteral s = Some n /\ n <> NaN.
Proof.
  intros [u H | u H | u H]; unfold parse_StrDecimalLiteral.
  - rewrite (split_sign_unsigned u (StrUnsignedDecimalLiteral_head u H)).
    now apply parse_StrUnsignedDecimalLiteral_complete.
  - exact (parse_StrUnsignedDecimalLiteral_complete false u H).
  - exact (parse_StrUnsignedDecimalLiteral_complete true u H).
Qed.

Lemma parse_radix (base : N) (P : N -> Prop) (c : N) (ds : jsstring) :
  (forall d, P d -> is_digit base d = true) ->
  radix_of_prefix c = Some base ->
  some_of P ds ->
  exists n,
    parse_NonDecimalIntegerLiteral (48%N :: c :: ds) = Some n /\ n <> NaN.
Proof.
  intros HP Hc [Hne Hall]. destruct ds as [|d ds]; [contradiction|].
  unfold parse_NonDecimalIntegerLiteral. cbn [N.eqb Pos.eqb].
  rewrite Hc.
  rewrite (Forall_forallb _ _ (digits_run P base _ HP Hall)).
  eexists. split; [reflexivity | apply of_decimal_not_NaN].
Qed.

Lemma parse_NonDecimalIntegerLiteral_complete (s : jsstring) :
  NonDecimalIntegerLiteral s ->
  exists n, parse_NonDecimalIntegerLiteral s = Some n /\ n <> NaN.
Proof.
  intros [p ds Hp Hds | p ds Hp Hds | p ds Hp Hds].
  - apply (parse_radix 2 BinaryDigit);
      [exact BinaryDigit_is_digit | | assumption].
    destruct Hp as [-> | ->]; reflexivity.
  - apply (parse_radix 8 OctalDigit);
      [exact OctalDigit_is_digit | | assumption].
    destruct Hp as [-> | ->]; reflexivity.
  - apply (parse_radix 16 HexDigit);
      [exact HexDigit_is_digit | | assumption].
    destruct Hp as [-> | ->]; reflexivity.
Qed.

Lemma parse_StrNumericLiteral_complete (s : jsstring) :
  StrNumericLiteral s ->
  exists n, parse_StrNumericLiteral s = Some n /\ n <> NaN.
Proof.
  unfold parse_StrNumericLiteral. intros [H | H].
  - destruct (parse_NonDecimalIntegerLiteral s) as [k|] eqn:Hk.
    + exists k. split; [reflexivity|].
      pose proof (parse_NonDecimalIntegerLiteral_sound s k Hk) as Hg.
      destruct (parse_NonDecimalIntegerLiteral_complete s Hg)
        as (k' & Hk' & Hnan).
      congruence.
    + now apply parse_StrDecimalLiteral_complete.
  - destruct (parse_NonDecimalIntegerLiteral_complete s H) as (n & -> & Hn).
    now exists n.
Qed.

(** *** No white space inside a literal *)

Lemma graphic_is_not_whitespace (c : N) :
  (33 <= c <= 126)%N -> is_whitespace c = false.
Proof.
  intros H. unfold is_whitespace.
  compare_all; cbn [andb orb]; try reflexivity; lia.
Qed.

Lemma class_has_no_whitespace (P : N -> Prop) (s : jsstring) :
  (forall c, P c -> (33 <= c <= 126)%N) ->
  Forall P s -> Forall (fun c => is_whitespace c = false) s.
Proof.
  intros HP. apply Forall_impl. intros c Hc.
  now apply graphic_is_not_whitespace, HP.
Qed.

Lemma DecimalDigits_no_whitespace (ds : jsstring) :
  opt DecimalDigits ds -> Forall (fun c => is_whitespace c = false) ds.
Proof.
  intros [-> | [_ H]]; [constructor|].
  revert H. apply class_has_no_whitespace.
  unfold DecimalDigit. intros c Hc. lia.
Qed.

Lemma ExponentPart_no_whitespace (exp : jsstring) :
  opt ExponentPart exp -> Forall (fun c => is_whitespace c = false) exp.
Proof.
  intros [-> | H]; [constructor|].
  assert (Hint : forall i, SignedInteger i ->
                           Forall (fun c => is_whitespace c = false) i).
  { intros i [ds Hds | ds Hds | ds Hds];
      repeat (constructor; [reflexivity|]);
      apply DecimalDigits_no_whitespace; now right. }
  destruct H as [i Hi | i Hi]; (constructor; [reflexivity | now apply Hint]).
Qed.

Lemma StrUnsignedDecimalLiteral_no_whitespace (s : jsstring) :
  StrUnsignedDecimalLiteral s ->
  Forall (fun c => is_whitespace c = false) s.
Proof.
  intros [ | int frac exp Hint Hfrac Hexp
           | frac exp Hfrac Hexp
           | int exp Hint Hexp ].
  - repeat constructor.
  - apply Forall_app. split;
      [apply DecimalDigits_no_whitespace; now right|].
    constructor; [reflexivity|]. apply Forall_app. split.
    + now apply DecimalDigits_no_whitespace.
    + now apply ExponentPart_no_whitespace.
  - constructor; [reflexivity|]. apply Forall_app. split.
    + apply DecimalDigits_no_whitespace. now right.
    + now apply ExponentPart_no_whitespace.
  - apply Forall_app. split.
    + apply DecimalDigits_no_whitespace. now right.
    + now apply ExponentPart_no_whitespace.
Qed.

Lemma StrNumericLiteral_no_whitespace (s : jsstring) :
  StrNumericLiteral s -> Forall (fun c => is_whitespace c = false) s.
Proof.
  intros [[u H | u H | u H] | [p ds Hp [_ H] | p ds Hp [_ H] | p ds Hp [_ H]]].
  - now apply StrUnsignedDecimalLiteral_no_whitespace.
  - constructor; [reflexivity|].
    now apply StrUnsignedDecimalLiteral_no_whitespace.
  - constructor; [reflexivity|].
    now apply StrUnsignedDecimalLiteral_no_whitespace.
  - constructor; [reflexivity|].
    constructor; [destruct Hp as [-> | ->]; reflexivity|].
    revert H. apply class_has_no_whitespace.
    unfold BinaryDigit. intros c Hc. lia.
  - constructor; [reflexivity|].
    constructor; [destruct Hp as [-> | ->]; reflexivity|].
    revert H. apply class_has_no_whitespace.
    unfold OctalDigit. intros c Hc. lia.
  - constructor; [reflexivity|].
    constructor; [destruct Hp as [-> | ->]; reflexivity|].
    revert H. apply class_has_no_whitespace.
    unfold HexDigit. intros c Hc. lia.
Qed.

(** White space around a text that has none inside is all [trim] takes
    away. *)
Lemma trim_around (before t after : jsstring) :
  StrWhiteSpace before -> StrWhiteSpace after ->
  Forall (fun c => is_whitespace c = false) t ->
  trim (before ++ t ++ after) = t.
Proof.
  intros Hb Ha Ht. destruct t as [|c t].
  - apply trim_blank, Forall_forallb, Forall_app. now split.
  - unfold trim. rewrite (drop_while_app _ _ _ Hb)
      by (cbn [app stops]; now inversion Ht).
    rewrite rev_app_distr.
    rewrite (drop_while_app _ _ _ (Forall_rev Ha)).
    + apply rev_involutive.
    + apply Forall_rev in Ht.
      destruct (rev (c :: t)) as [|l r]; [exact I|].
      cbn [stops]. now inversion Ht.
Qed.

(** Every string of the grammar coerces to a number. *)
Lemma StringToNumber_complete (s : jsstring) :
  StringNumericLiteral s -> StringToNumber s <> NaN.
Proof.
  intros (before & t & after & -> & Hb & Ha & Ht).
  unfold StringToNumber. destruct Ht as [-> | Ht].
  - rewrite (trim_around before [] after Hb Ha) by constructor.
    discriminate.
  - rewrite (trim_around before t after Hb Ha)
      by now apply StrNumericLiteral_no_whitespace.
    destruct (parse_StrNumericLiteral_complete t Ht) as (n & Hn & Hnan).
    destruct t as [|c r]; [discriminate|]. now rewrite Hn.
Qed.

(** [Number] of a string is [NaN] exactly when the string is outside the
    grammar. *)
Lemma StringToNumber_NaN_iff (s : jsstring) :
  StringToNumber s = NaN <-> ~ StringNumericLiteral s.
Proof.
  split.
  - intros H Hs. now apply (StringToNumber_complete s Hs).
  - apply StringToNumber_not_numeric.
Qed.

End ParserFacts.

(* ================================================================== *)
(** * Properties of the component                                      *)
(* ================================================================== *)

Module AppFacts.

Import JS App.
Local Open Scope string_scope.

(** ** The reducer *)

Lemma reducer_SET_WELLS (wells data : value) :
  reducer wells (SET_WELLS data) = data.
Proof. reflexivity. Qed.

Lemma reducer_default (wells : value) (action : Action) :
  type action <> lit "SET_WELLS" -> reducer wells action = Undefined.
Proof.
  intros H. unfold reducer, jsstring_eqb.
  destruct (list_eq_dec N.eq_dec (type action) (lit "SET_WELLS"));
    [contradiction | reflexivity].
Qed.

Lemma produce_replaces (base data : value) :
  data <> Undefined -> Immer.produce base data = data.
Proof. destruct data; [contradiction | reflexivity ..]. Qed.

(** C2. Whatever the state was, dispatching [SET_WELLS] with a payload
    (any value other than [undefined], a sequence of records in
    particular) makes the state that payload; the state cell starts as
    the empty array. *)
Theorem SET_WELLS_replaces_the_state :
  initialState = Arr [] /\
  (forall (wells : value) (records : list value),
      reduce wells (SET_WELLS (Arr records)) = Arr records) /\
  (forall (wells data : value),
      data <> Undefined -> reduce wells (SET_WELLS data) = data) /\
  (forall (m : machine) (data : value),
      data <> Undefined ->
      App.wells (snd (dispatch (SET_WELLS data) m)) = data).
Proof.
  split; [reflexivity|]. split; [reflexivity|]. split.
  - intros wells data H. unfold reduce. rewrite reducer_SET_WELLS.
    now apply produce_replaces.
  - intros m data H. cbn [dispatch snd App.wells]. unfold reduce.
    rewrite reducer_SET_WELLS. now apply produce_replaces.
Qed.

(** C7. An action whose type is not [SET_WELLS] leaves the state as it
    was: the default branch returns nothing and Immer keeps the base. *)
Theorem other_actions_keep_the_state (wells : value) (action : Action) :
  type action <> lit "SET_WELLS" ->
  reduce wells action = wells /\
  forall m : machine,
    App.wells m = wells -> App.wells (snd (dispatch action m)) = wells.
Proof.
  intros H. split.
  - unfold reduce. now rewrite reducer_default.
  - intros m <-. cbn [dispatch snd App.wells]. unfold reduce.
    now rewrite reducer_default.
Qed.

(** ** Markers *)

Section Markers.

Variable NumberToString : number -> jsstring.

(** What a marker that was built says about the well it came from. *)
Lemma marker_inv (well : value) (index : nat) (mk : Marker) :
  marker NumberToString well index = Ok mk ->
  exists latitude longitude lat lng,
    Get well (lit "LATITUDE") = Ok latitude /\
    Number NumberToString latitude = Ok lat /\
    Get well (lit "LONGITUDE") = Ok longitude /\
    Number NumberToString longitude = Ok lng /\
    key mk = index /\
    position mk = (lat, lng).
Proof.
  unfold marker.
  destruct (Get well (lit "LATITUDE")) as [latitude|] eqn:E1;
    [|discriminate].
  cbn [bind].
  destruct (Number NumberToString latitude) as [lat|] eqn:E2;
    [|discriminate].
  cbn [bind].
  destruct (Get well (lit "LONGITUDE")) as [longitude|] eqn:E3;
    [|discriminate].
  cbn [bind].
  destruct (Number NumberToString longitude) as [lng|] eqn:E4;
    [|discriminate].
  cbn [bind].
  destruct well; try discriminate; cbn [Get bind]; intros [= <-];
    exists latitude, longitude, lat, lng;
    repeat split; try assumption; reflexivity.
Qed.

(** A record whose coordinates are strings always gets a marker. *)
Lemma marker_of_strings (props : list (jsstring * value)) (index : nat)
      (lat lng : jsstring) :
  own props (lit "LATITUDE") = Some (Str lat) ->
  own props (lit "LONGITUDE") = Some (Str lng) ->
  exists mk,
    marker NumberToString (Obj props) index = Ok mk /\
    key mk = index /\
    position mk = (StringToNumber lat, StringToNumber lng).
Proof.
  intros Hlat Hlng. unfold marker. cbn [Get bind].
  rewrite Hlat, Hlng. cbn [Number ToNumber bind].
  eexists. split; [reflexivity|]. split; reflexivity.
Qed.

Lemma required_string (props : list (jsstring * value)) (name : jsstring) :
  required props name = true -> exists s, own props name = Some (Str s).
Proof.
  unfold required. destruct (own props name) as [[]|]; try discriminate.
  intros _. eexists; reflexivity.
Qed.

Lemma Well_coordinates (well : value) :
  Well well = true ->
  exists props lat lng,
    well = Obj props /\
    own props (lit "LATITUDE") = Some (Str lat) /\
    own props (lit "LONGITUDE") = Some (Str lng).
Proof.
  destruct well as [| | | | | |props]; try discriminate.
  unfold Well. intros H.
  repeat (apply andb_true_iff in H as [H ?]).
  destruct (required_string _ _ H) as [lat Hlat].
  match goal with
  | R : required props (lit "LONGITUDE") = true |- _ =>
      destruct (required_string _ _ R) as [lng Hlng]
  end.
  exists props, lat, lng. repeat split; assumption.
Qed.

Lemma marker_of_Well (well : value) (index : nat) :
  Well well = true ->
  exists mk, marker NumberToString well index = Ok mk /\ key mk = index.
Proof.
  intros H. destruct (Well_coordinates _ H)
    as (props & lat & lng & -> & Hlat & Hlng).
  destruct (marker_of_strings props index lat lng Hlat Hlng) as (mk & Hmk & Hkey & _).
  exists mk. split; assumption.
Qed.

(** [map_from] answers with one marker per element, in order, the marker
    at place [i] being the one of element [i] under the index
    [index + i]. *)
Lemma map_from_spec (elements : list value) :
  forall (index : nat) (ms : list Marker),
    map_from NumberToString index elements = Ok ms ->
    length ms = length elements /\
    forall i well,
      nth_error elements i = Some well ->
      exists mk,
        nth_error ms i = Some mk /\
        marker NumberToString well (index + i) = Ok mk /\
        key mk = index + i.
Proof.
  induction elements as [|w rest IH]; intros index ms.
  - intros [= <-]. split; [reflexivity|]. intros [|i] well; discriminate.
  - cbn [map_from].
    destruct (marker NumberToString w index) as [m|] eqn:Em; [|discriminate].
    cbn [bind].
    destruct (map_from NumberToString (S index) rest) as [ms'|] eqn:Ems;
      [|discriminate].
    cbn [bind]. intros [= <-].
    destruct (IH _ _ Ems) as [Hlen Hnth]. split.
    + cbn [length]. now rewrite Hlen.
    + intros [|i] well; cbn [nth_error].
      * intros [= <-]. exists m. rewrite Nat.add_0_r.
        destruct (marker_inv _ _ _ Em) as (? & ? & ? & ? & _ & _ & _ & _ & Hk & _).
        repeat split; assumption.
      * intros Hi. destruct (Hnth _ _ Hi) as (mk & H1 & H2 & H3).
        exists mk. rewrite <- plus_n_Sm. repeat split; assumption.
Qed.

(** On well-shaped records [map_from] does answer. *)
Lemma map_from_Wells (elements : list value) :
  forallb Well elements = true ->
  forall index : nat,
    exists ms, map_from NumberToString index elements = Ok ms.
Proof.
  induction elements as [|w rest IH]; intros H index.
  - exists []. reflexivity.
  - cbn [forallb] in H. apply andb_true_iff in H as [Hw Hrest].
    destruct (marker_of_Well w index Hw) as (m & Hm & _).
    destruct (IH Hrest (S index)) as [ms Hms].
    exists (m :: ms). cbn [map_from]. now rewrite Hm, Hms.
Qed.

Lemma map_from_keys (elements : list value) :
  forall (index : nat) (ms : list Marker),
    map_from NumberToString index elements = Ok ms ->
    map key ms = seq index (length elements).
Proof.
  induction elements as [|w rest IH]; intros index ms.
  - now intros [= <-].
  - cbn [map_from].
    destruct (marker NumberToString w index) as [m|] eqn:Em; [|discriminate].
    cbn [bind].
    destruct (map_from NumberToString (S index) rest) as [ms'|] eqn:Ems;
      [|discriminate].
    cbn [bind]. intros [= <-]. cbn [map length seq].
    destruct (marker_inv _ _ _ Em) as (? & ? & ? & ? & _ & _ & _ & _ & Hk & _).
    now rewrite Hk, (IH _ _ Ems).
Qed.

(** ** One render *)

Lemma App_renders (m : machine) (ms : list Marker) :
  wells_map NumberToString (wells m) = Ok ms ->
  exists tree,
    App NumberToString m =
      (Ok tree,
       {| wells := wells m;
          console :=
            console m ++ [console_log (lit "App component rendered") []];
          dispatched := dispatched m |}) /\
    markers tree = ms.
Proof.
  intros H. unfold App, andThen, log, read_wells, lift, ret.
  cbn [wells]. rewrite H. eexists. split; reflexivity.
Qed.

Lemma App_throws (m : machine) (e : exn) :
  wells_map NumberToString (wells m) = Throw e ->
  App NumberToString m =
    (Throw e,
     {| wells := wells m;
        console :=
          console m ++ [console_log (lit "App component rendered") []];
        dispatched := dispatched m |}).
Proof.
  intros H. unfold App, andThen, log, read_wells, lift, ret.
  cbn [wells]. now rewrite H.
Qed.

(** ** The effect *)

Lemma useEffect_received (status : Z) (data : value) (m : machine) :
  useEffect (Ok {| status := status; json := Ok data |}) m =
    (Ok tt,
     {| wells := reduce (wells m) (SET_WELLS data);
        console :=
          console m ++ [console_log (lit "Fetching wells data...") [];
                        console_log (lit "Wells data received:") [data]];
        dispatched := dispatched m ++ [SET_WELLS data] |}).
Proof.
  unfold useEffect, andThen, catch, log, lift, dispatch.
  cbn [json wells console dispatched]. now rewrite <- app_assoc.
Qed.

Lemma useEffect_failed (net : fetched) (e : exn) (m : machine) :
  net = Throw e \/
  (exists status, net = Ok {| status := status; json := Throw e |}) ->
  useEffect net m =
    (Ok tt,
     {| wells := wells m;
        console :=
          console m ++ [console_log (lit "Fetching wells data...") [];
                        console_error (lit "Error fetching wells data:") e];
        dispatched := dispatched m |}).
Proof.
  intros [-> | [status ->]];
    unfold useEffect, andThen, catch, log, log_error, lift;
    cbn [json wells console dispatched]; now rewrite <- app_assoc.
Qed.

(** ** A whole session *)

Lemma session_received (status : Z) (data : value) :
  session NumberToString (Ok {| status := status; json := Ok data |}) boot =
    App NumberToString
      {| wells := reduce initialState (SET_WELLS data);
         console := [console_log (lit "App component rendered") [];
                     console_log (lit "Fetching wells data...") [];
                     console_log (lit "Wells data received:") [data]];
         dispatched := [SET_WELLS data] |}.
Proof.
  unfold session. unfold andThen at 1.
  destruct (App_renders boot []) as (first & -> & _); [reflexivity|].
  unfold andThen at 1. rewrite useEffect_received. reflexivity.
Qed.

Lemma session_failed (net : fetched) (e : exn) :
  net = Throw e \/
  (exists status, net = Ok {| status := status; json := Throw e |}) ->
  exists tree,
    session NumberToString net boot =
      (Ok tree,
       {| wells := initialState;
          console := [console_log (lit "App component rendered") [];
                      console_log (lit "Fetching wells data...") [];
                      console_error (lit "Error fetching wells data:") e];
          dispatched := [] |}) /\
    markers tree = [].
Proof.
  intros H. unfold session. unfold andThen at 1.
  destruct (App_renders boot []) as (first & -> & Hfirst); [reflexivity|].
  unfold andThen at 1. rewrite (useEffect_failed net e _ H).
  exists first. split; [reflexivity | assumption].
Qed.

(** ** Looking a field up *)

Lemma jsstring_eqb_refl (a : jsstring) : jsstring_eqb a a = true.
Proof.
  unfold jsstring_eqb. destruct (list_eq_dec N.eq_dec a a);
    [reflexivity | contradiction].
Qed.

Lemma jsstring_eqb_neq (a b : jsstring) : a <> b -> jsstring_eqb a b = false.
Proof.
  intros H. unfold jsstring_eqb. destruct (list_eq_dec N.eq_dec a b);
    [contradiction | reflexivity].
Qed.

Lemma own_has_field (props : list (jsstring * value)) (name s : jsstring) :
  Display.has_field props name s -> own props name = Some (Str s).
Proof.
  intros (before & after & -> & Hfirst).
  induction before as [|[k v] before IH]; cbn [app own].
  - now rewrite jsstring_eqb_refl.
  - cbn [map fst In] in Hfirst.
    rewrite jsstring_eqb_neq by tauto. apply IH. tauto.
Qed.

Lemma own_lacks_field (props : list (jsstring * value)) (name : jsstring) :
  Display.lacks_field props name -> own props name = None.
Proof.
  unfold Display.lacks_field.
  induction props as [|[k v] props IH]; cbn [own map fst In]; intros H;
    [reflexivity|].
  rewrite jsstring_eqb_neq by tauto. apply IH. tauto.
Qed.

(** ** The claims about rendering *)

(** C1. When the response body is a JSON array of well-shaped records,
    whatever the status, the session ends with that array as the state
    and a tree with as many markers as records; the marker at place [i]
    is the one built from record [i], under key [i]. *)
Theorem one_marker_per_record_in_order (status : Z) (records : list value) :
  forallb Well records = true ->
  exists tree m,
    session NumberToString
            (Ok {| status := status; json := Ok (Arr records) |}) boot
      = (Ok tree, m) /\
    wells m = Arr records /\
    length (markers tree) = length records /\
    forall i well,
      nth_error records i = Some well ->
      exists mk,
        nth_error (markers tree) i = Some mk /\
        marker NumberToString well i = Ok mk /\
        key mk = i.
Proof.
  intros H. rewrite session_received.
  destruct (map_from_Wells records H 0) as [ms Hms].
  destruct (App_renders
              {| wells := reduce initialState (SET_WELLS (Arr records));
                 console := [console_log (lit "App component rendered") [];
                             console_log (lit "Fetching wells data...") [];
                             console_log (lit "Wells data received:")
                                         [Arr records]];
                 dispatched := [SET_WELLS (Arr records)] |} ms Hms)
    as (tree & Htree & Hmarkers).
  rewrite Htree. eexists; eexists. split; [reflexivity|].
  split; [reflexivity|]. rewrite Hmarkers.
  exact (map_from_spec records 0 ms Hms).
Qed.

(** C3. A record whose coordinates are the strings [lat] and [lng] gets
    a marker, whatever the strings are, and its position is
    [(Number(lat), Number(lng))].  For ["48.21"] and ["-103.6"] that is
    [(48.21, -103.6)], the binary64 values [6784954313610363 * 2^-47] and
    [-7290201896805990 * 2^-46]; a coordinate string outside the grammar
    gives [NaN] there, and the marker is built all the same. *)
Theorem marker_position_is_Number_of_coordinates
        (props : list (jsstring * value)) (index : nat) (lat lng : jsstring) :
  own props (lit "LATITUDE") = Some (Str lat) ->
  own props (lit "LONGITUDE") = Some (Str lng) ->
  exists mk la lo,
    marker NumberToString (Obj props) index = Ok mk /\
    Number NumberToString (Str lat) = Ok la /\
    Number NumberToString (Str lng) = Ok lo /\
    position mk = (la, lo) /\
    (lat = lit "48.21" -> lng = lit "-103.6" ->
     position mk = (Finite false 6784954313610363 (-47),
                    Finite true 7290201896805990 (-46))) /\
    (~ Grammar.StringNumericLiteral lat -> fst (position mk) = NaN) /\
    (~ Grammar.StringNumericLiteral lng -> snd (position mk) = NaN).
Proof.
  intros Hlat Hlng.
  destruct (marker_of_strings props index lat lng Hlat Hlng)
    as (mk & Hmk & _ & Hpos).
  exists mk, (StringToNumber lat), (StringToNumber lng).
  repeat split; try assumption; try reflexivity; rewrite Hpos.
  - intros -> ->. reflexivity.
  - intros H. now apply ParserFacts.StringToNumber_NaN_iff.
  - intros H. now apply ParserFacts.StringToNumber_NaN_iff.
Qed.

(** C6. The popup of a record lists the eight display fields in the
    order name, status, type, API number, operator, closest city, oil
    produced, gas produced; after each label it shows the field's string
    when the record has the field and ["Unknown"] when it lacks it. *)
Theorem popup_lists_the_fields_in_order
        (props : list (jsstring * value)) (index : nat) (mk : Marker) :
  marker NumberToString (Obj props) index = Ok mk ->
  exists name status type api operator city oil gas,
    Popup mk =
      [ strong (lit "Well Name:"); text (lit " "); expr name; br;
        strong (lit "Status:"); text (lit " "); expr status; br;
        strong (lit "Type:"); text (lit " "); expr type; br;
        strong (lit "API No:"); text (lit " "); expr api; br;
        strong (lit "Operator:"); text (lit " "); expr operator; br;
        strong (lit "Closest City:"); expr (Str (lit " ")); expr city; br;
        strong (lit "Oil Produced:"); expr (Str (lit " ")); expr oil; br;
        strong (lit "Gas Produced:"); expr (Str (lit " ")); expr gas ] /\
    Display.shows props (lit "WELL_NAME") name /\
    Display.shows props (lit "WELL_STATUS") status /\
    Display.shows props (lit "WELL_TYPE") type /\
    Display.shows props (lit "API_NO") api /\
    Display.shows props (lit "OPERATOR") operator /\
    Display.shows props (lit "CLOSEST_CITY") city /\
    Display.shows props (lit "OIL_PRODUCED") oil /\
    Display.shows props (lit "GAS_PRODUCED") gas.
Proof.
  unfold marker. cbn [Get bind].
  destruct (Number NumberToString _) as [lat|]; [|discriminate].
  cbn [bind].
  destruct (Number NumberToString _) as [lng|]; [|discriminate].
  cbn [bind]. intros [= <-]. cbn [Popup].
  do 8 eexists. split; [reflexivity|].
  unfold Display.shows.
  repeat split;
    (intros s H; now rewrite (own_has_field _ _ _ H))
    || (intros H; now rewrite (own_lacks_field _ _ H)).
Qed.

(** C8. Dispatching the same [SET_WELLS] a second time changes nothing:
    the state and the rendered markers are those after the first
    dispatch.  When the payload is a sequence the markers are those of
    the payload alone, their keys being [0 .. n-1] without repetition. *)
Theorem replacing_twice_renders_as_once (wells data : value) :
  reduce (reduce wells (SET_WELLS data)) (SET_WELLS data)
    = reduce wells (SET_WELLS data) /\
  wells_map NumberToString
            (reduce (reduce wells (SET_WELLS data)) (SET_WELLS data))
    = wells_map NumberToString (reduce wells (SET_WELLS data)) /\
  (forall m : machine,
      fst (App NumberToString
               (snd (dispatch (SET_WELLS data)
                              (snd (dispatch (SET_WELLS data) m)))))
      = fst (App NumberToString (snd (dispatch (SET_WELLS data) m)))) /\
  (forall records ms,
      data = Arr records ->
      wells_map NumberToString (reduce wells (SET_WELLS data)) = Ok ms ->
      wells_map NumberToString data = Ok ms /\
      map key ms = seq 0 (length records) /\
      NoDup (map key ms)).
Proof.
  assert (Hid : forall w,
             reduce (reduce w (SET_WELLS data)) (SET_WELLS data)
             = reduce w (SET_WELLS data)).
  { intros w. unfold reduce. rewrite !reducer_SET_WELLS.
    destruct data; reflexivity. }
  split; [apply Hid|]. split; [now rewrite Hid|]. split.
  - intros m. unfold App, andThen, log, read_wells, lift, ret, dispatch.
    cbn [App.wells snd fst]. rewrite Hid.
    destruct (wells_map NumberToString _); reflexivity.
  - intros records ms -> Hms.
    assert (Hms' : wells_map NumberToString (Arr records) = Ok ms)
      by exact Hms.
    split; [assumption|].
    pose proof (map_from_keys records 0 ms Hms') as Hkeys.
    split; [assumption|]. rewrite Hkeys. apply seq_NoDup.
Qed.

(** C9. A body that is valid JSON but not an array is dispatched as it
    is, becomes the state, and the render that follows throws a
    [TypeError]. *)
Theorem non_array_body_breaks_the_render (status : Z) (data : value) :
  is_array data = false ->
  data <> Undefined ->
  exists m,
    session NumberToString
            (Ok {| status := status; json := Ok data |}) boot
      = (Throw TypeError, m) /\
    wells m = data /\
    dispatched m = [SET_WELLS data] /\
    wells_map NumberToString data = Throw TypeError.
Proof.
  intros Harr Hdef. rewrite session_received.
  assert (Hstate : reduce initialState (SET_WELLS data) = data).
  { unfold reduce. rewrite reducer_SET_WELLS. now apply produce_replaces. }
  assert (Hthrow : wells_map NumberToString data = Throw TypeError).
  { destruct data; try reflexivity; discriminate. }
  rewrite Hstate. erewrite App_throws by exact Hthrow.
  eexists. repeat split; assumption.
Qed.

(** C10. A coordinate string that is empty or all white space coerces to
    [+0], not [NaN], and the record gets its marker at that coordinate;
    with both coordinates blank the marker is at [(0, 0)]. *)
Theorem blank_coordinate_is_zero
        (props : list (jsstring * value)) (index : nat) (lat lng : jsstring) :
  own props (lit "LATITUDE") = Some (Str lat) ->
  own props (lit "LONGITUDE") = Some (Str lng) ->
  exists mk,
    marker NumberToString (Obj props) index = Ok mk /\
    (forallb is_whitespace lat = true ->
     fst (position mk) = Zero false /\ fst (position mk) <> NaN) /\
    (forallb is_whitespace lng = true ->
     snd (position mk) = Zero false /\ snd (position mk) <> NaN) /\
    (lat = [] -> lng = [] -> position mk = (Zero false, Zero false)).
Proof.
  intros Hlat Hlng.
  destruct (marker_of_strings props index lat lng Hlat Hlng)
    as (mk & Hmk & _ & Hpos).
  exists mk. rewrite Hpos. cbn [fst snd]. split; [assumption|].
  split; [|split].
  - intros H. rewrite (ParserFacts.StringToNumber_blank lat H).
    split; [reflexivity | discriminate].
  - intros H. rewrite (ParserFacts.StringToNumber_blank lng H).
    split; [reflexivity | discriminate].
  - intros -> ->. reflexivity.
Qed.

(** C4. When the fetch fails, by a rejected request or by a body that is
    not JSON, the effect logs the error and does nothing else: the state
    and the list of dispatched actions are as before.  A session that
    fails this way ends on the initial empty state with no marker. *)
Theorem failed_fetch_is_logged_and_keeps_the_state
        (net : fetched) (e : exn) (m : machine) :
  net = Throw e \/
  (exists status, net = Ok {| status := status; json := Throw e |}) ->
  useEffect net m =
    (Ok tt,
     {| wells := wells m;
        console :=
          console m ++ [console_log (lit "Fetching wells data...") [];
                        console_error (lit "Error fetching wells data:") e];
        dispatched := dispatched m |}) /\
  exists tree m',
    session NumberToString net boot = (Ok tree, m') /\
    markers tree = [] /\
    wells m' = initialState /\
    dispatched m' = [] /\
    In (console_error (lit "Error fetching wells data:") e) (console m').
Proof.
  intros H. split; [now apply useEffect_failed|].
  destruct (session_failed net e H) as (tree & Hs & Hmarkers).
  rewrite Hs. eexists; eexists. split; [reflexivity|].
  repeat split; try assumption. cbn [console]. simpl. tauto.
Qed.

End Markers.

(** ** The loader and the status code *)

(** C5, as the code has it.  The loader never reads the status: a
    response of any status whose body parses is logged as received and
    dispatched, and a response of any status whose body does not parse is
    logged as an error with nothing dispatched. *)
Theorem loader_outcome_is_decided_by_the_body
        (status : Z) (body : result value) (m : machine) :
  useEffect (Ok {| status := status; json := body |}) m =
    match body with
    | Ok data =>
        (Ok tt,
         {| wells := reduce (wells m) (SET_WELLS data);
            console :=
              console m ++ [console_log (lit "Fetching wells data...") [];
                            console_log (lit "Wells data received:") [data]];
            dispatched := dispatched m ++ [SET_WELLS data] |})
    | Throw e =>
        (Ok tt,
         {| wells := wells m;
            console :=
              console m ++
                [console_log (lit "Fetching wells data...") [];
                 console_error (lit "Error fetching wells data:") e];
            dispatched := dispatched m |})
    end.
Proof.
  destruct body as [data|e].
  - apply useEffect_received.
  - apply useEffect_failed. right. now exists status.
Qed.

(** C5, as stated, fails: a 500 response carrying a JSON error object is
    taken as a successful load, and the object becomes the state. *)
Lemma status_500_with_a_JSON_body_is_dispatched :
  status Samples.error_500 <> 200%Z /\
  useEffect (Ok Samples.error_500) boot =
    (Ok tt,
     {| wells := Samples.error_body;
        console := [console_log (lit "Fetching wells data...") [];
                    console_log (lit "Wells data received:")
                                [Samples.error_body]];
        dispatched := [SET_WELLS Samples.error_body] |}).
Proof. split; [discriminate | reflexivity]. Qed.

(** ** The claims at concrete inputs *)

Lemma one_marker_per_record_in_order_witness :
  forallb Well [Samples.well_A] = true /\
  exists tree m,
    session Samples.unused
            (Ok {| status := 200; json := Ok (Arr [Samples.well_A]) |}) boot
      = (Ok tree, m) /\
    wells m = Arr [Samples.well_A] /\
    length (markers tree) = 1 /\
    forall i well,
      nth_error [Samples.well_A] i = Some well ->
      exists mk,
        nth_error (markers tree) i = Some mk /\
        marker Samples.unused well i = Ok mk /\
        key mk = i.
Proof.
  split; [reflexivity|].
  apply (one_marker_per_record_in_order
           Samples.unused 200 [Samples.well_A]).
  reflexivity.
Defined.

Lemma SET_WELLS_replaces_the_state_witness :
  Samples.error_body <> Undefined /\
  reduce (Arr [Samples.well_A]) (SET_WELLS Samples.error_body)
    = Samples.error_body.
Proof.
  split; [discriminate|].
  apply (proj1 (proj2 (proj2 SET_WELLS_replaces_the_state))).
  discriminate.
Defined.

Lemma other_actions_keep_the_state_witness :
  type Samples.CLEAR_WELLS <> lit "SET_WELLS" /\
  reduce (Arr [Samples.well_A]) Samples.CLEAR_WELLS = Arr [Samples.well_A].
Proof.
  assert (H : type Samples.CLEAR_WELLS <> lit "SET_WELLS") by discriminate.
  split; [exact H|].
  exact (proj1 (other_actions_keep_the_state
                  (Arr [Samples.well_A]) Samples.CLEAR_WELLS H)).
Defined.

Lemma marker_position_is_Number_of_coordinates_witness :
  own Samples.well_A_props (lit "LATITUDE") = Some (Str (lit "48.21")) /\
  own Samples.well_A_props (lit "LONGITUDE") = Some (Str (lit "-103.6")) /\
  exists mk,
    marker Samples.unused Samples.well_A 0 = Ok mk /\
    position mk = (Finite false 6784954313610363 (-47),
                   Finite true 7290201896805990 (-46)).
Proof.
  split; [reflexivity|]. split; [reflexivity|].
  destruct (marker_position_is_Number_of_coordinates
              Samples.unused Samples.well_A_props 0
              (lit "48.21") (lit "-103.6") eq_refl eq_refl)
    as (mk & la & lo & Hmk & _ & _ & _ & Hpos & _).
  exists mk. split; [exact Hmk | exact (Hpos eq_refl eq_refl)].
Defined.

Lemma failed_fetch_is_logged_and_keeps_the_state_witness :
  (Samples.offline = Throw NetworkError \/
   exists status,
     Samples.offline
     = Ok {| status := status; json := Throw NetworkError |}) /\
  useEffect Samples.offline boot =
    (Ok tt,
     {| wells := Arr [];
        console := [console_log (lit "Fetching wells data...") [];
                    console_error (lit "Error fetching wells data:")
                                  NetworkError];
        dispatched := [] |}).
Proof.
  assert (H : Samples.offline = Throw NetworkError \/
              exists status,
                Samples.offline
                = Ok {| status := status; json := Throw NetworkError |})
    by (left; reflexivity).
  split; [exact H|].
  exact (proj1 (failed_fetch_is_logged_and_keeps_the_state
                  Samples.unused Samples.offline NetworkError boot H)).
Defined.

Lemma popup_lists_the_fields_in_order_witness :
  exists mk,
    marker Samples.unused Samples.well_A 0 = Ok mk /\
    nth_error (Popup mk) 0 = Some (strong (lit "Well Name:")) /\
    nth_error (Popup mk) 2 = Some (expr (Str (lit "Well A"))) /\
    nth_error (Popup mk) 4 = Some (strong (lit "Status:")) /\
    nth_error (Popup mk) 6 = Some (expr (Str (lit "Unknown"))).
Proof.
  eexists. split; [reflexivity|].
  destruct (popup_lists_the_fields_in_order
              Samples.unused Samples.well_A_props 0 _ eq_refl)
    as (name & status & type & api & operator & city & oil & gas
        & Hpopup & Hname & Hstatus & _).
  assert (Hhas : Display.has_field Samples.well_A_props (lit "WELL_NAME")
                                   (lit "Well A")).
  { exists [(lit "LATITUDE", Str (lit "48.21"));
            (lit "LONGITUDE", Str (lit "-103.6"))], [].
    split; [reflexivity|].
    cbn. intros [H | [H | []]]; discriminate. }
  assert (Hlacks : Display.lacks_field Samples.well_A_props
                                       (lit "WELL_STATUS")).
  { unfold Display.lacks_field. cbn.
    intros [H | [H | [H | []]]]; discriminate. }
  rewrite Hpopup, (proj1 Hname _ Hhas), (proj2 Hstatus Hlacks).
  repeat split.
Defined.

Lemma replacing_twice_renders_as_once_witness :
  exists ms,
    wells_map Samples.unused
              (reduce (Arr [Null])
                      (SET_WELLS (Arr [Samples.well_A; Samples.well_A])))
      = Ok ms /\
    map key ms = [0; 1].
Proof.
  eexists. split; [reflexivity|].
  exact (proj1 (proj2
    (proj2 (proj2 (proj2 (replacing_twice_renders_as_once
                            Samples.unused (Arr [Null])
                            (Arr [Samples.well_A; Samples.well_A]))))
       [Samples.well_A; Samples.well_A] _ eq_refl eq_refl))).
Defined.

Lemma non_array_body_breaks_the_render_witness :
  is_array Samples.error_body = false /\
  Samples.error_body <> Undefined /\
  exists m,
    session Samples.unused
            (Ok {| status := 404; json := Ok Samples.error_body |}) boot
      = (Throw TypeError, m) /\
    wells m = Samples.error_body.
Proof.
  assert (H : Samples.error_body <> Undefined) by discriminate.
  split; [reflexivity|]. split; [exact H|].
  destruct (non_array_body_breaks_the_render
              Samples.unused 404 Samples.error_body eq_refl H)
    as (m & Hs & Hw & _).
  exists m. split; assumption.
Defined.

Lemma blank_coordinate_is_zero_witness :
  own Samples.blank_props (lit "LATITUDE") = Some (Str []) /\
  own Samples.blank_props (lit "LONGITUDE") = Some (Str (lit "  ")) /\
  exists mk,
    marker Samples.unused (Obj Samples.blank_props) 0 = Ok mk /\
    position mk = (Zero false, Zero false).
Proof.
  split; [reflexivity|]. split; [reflexivity|].
  destruct (blank_coordinate_is_zero
              Samples.unused Samples.blank_props 0 [] (lit "  ")
              eq_refl eq_refl)
    as (mk & Hmk & Hlat & Hlng & _).
  exists mk. split; [exact Hmk|].
  destruct (Hlat eq_refl) as [Hla _]. destruct (Hlng eq_refl) as [Hlo _].
  destruct (position mk) as [la lo]. cbn [fst snd] in Hla, Hlo.
  now rewrite Hla, Hlo.
Defined.

(** ** The scenarios of the specification, run *)

(** [Number("48.21")] and [Number("-103.6")] as binary64 values. *)
Example Number_of_the_sample_coordinates :
  StringToNumber (lit "48.21") = Finite false 6784954313610363 (-47) /\
  StringToNumber (lit "-103.6") = Finite true 7290201896805990 (-46).
Proof. split; reflexivity. Qed.

Example not_a_number_is_outside_the_grammar :
  ~ Grammar.StringNumericLiteral (lit "not-a-number") /\
  StringToNumber (lit "not-a-number") = NaN.
Proof.
  split; [|reflexivity].
  apply ParserFacts.StringToNumber_NaN_iff. reflexivity.
Qed.

(** The response holding well A alone: one marker, at the centre of the
    map, whose popup reads [Well Name: Well A], [Status: Unknown], and so
    on; two renders and no error in the console. *)
Example session_with_well_A :
  exists tree m,
    session Samples.unused
            (Ok {| status := 200; json := Ok (Arr [Samples.well_A]) |}) boot
      = (Ok tree, m) /\
    markers tree =
      [ {| key := 0;
           position := center tree;
           Popup :=
             [ strong (lit "Well Name:"); text (lit " ");
               expr (Str (lit "Well A")); br;
               strong (lit "Status:"); text (lit " ");
               expr (Str (lit "Unknown")); br;
               strong (lit "Type:"); text (lit " ");
               expr (Str (lit "Unknown")); br;
               strong (lit "API No:"); text (lit " ");
               expr (Str (lit "Unknown")); br;
               strong (lit "Operator:"); text (lit " ");
               expr (Str (lit "Unknown")); br;
               strong (lit "Closest City:"); expr (Str (lit " "));
               expr (Str (lit "Unknown")); br;
               strong (lit "Oil Produced:"); expr (Str (lit " "));
               expr (Str (lit "Unknown")); br;
               strong (lit "Gas Produced:"); expr (Str (lit " "));
               expr (Str (lit "Unknown")) ] |} ] /\
    console m =
      [ console_log (lit "App component rendered") [];
        console_log (lit "Fetching wells data...") [];
        console_log (lit "Wells data received:") [Arr [Samples.well_A]];
        console_log (lit "App component rendered") [] ].
Proof.
  eexists; eexists. split; [reflexivity|]. split; reflexivity.
Qed.

(** The response [[]]: no marker, and nothing logged as an error. *)
Example session_with_an_empty_array :
  exists tree m,
    session Samples.unused
            (Ok {| status := 200; json := Ok (Arr []) |}) boot
      = (Ok tree, m) /\
    markers tree = [] /\
    console m =
      [ console_log (lit "App component rendered") [];
        console_log (lit "Fetching wells data...") [];
        console_log (lit "Wells data received:") [Arr []];
        console_log (lit "App component rendered") [] ].
Proof. eexists; eexists. split; [reflexivity|]. split; reflexivity. Qed.

(** A record with [LATITUDE: "not-a-number"] still gets its marker, at
    a [NaN] latitude. *)
Example marker_at_not_a_number :
  exists mk,
    marker Samples.unused (Obj Samples.not_a_number_props) 0 = Ok mk /\
    fst (position mk) = NaN.
Proof. eexists. split; reflexivity. Qed.

(** An array holding [null] is beyond what the render survives: reading
    [LATITUDE] on [null] throws. *)
Example render_of_a_null_element :
  wells_map Samples.unused (Arr [Null]) = Throw TypeError.
Proof. reflexivity. Qed.

End AppFacts.

(* ================================================================== *)
(** * Further laws of the component                                    *)
(* ================================================================== *)

Module AppLaws.

Import JS App.
Local Open Scope string_scope.

(** ** Values, by structural induction through arrays *)

Lemma value_nested_ind (P : value -> Prop) :
  P Undefined -> P Null -> (forall b, P (Bool b)) -> (forall n, P (Num n)) ->
  (forall s, P (Str s)) ->
  (forall elements, Forall P elements -> P (Arr elements)) ->
  (forall props, P (Obj props)) ->
  forall v, P v.
Proof.
  intros HU HN HB Hn HS HA HO.
  refine (fix IH (v : value) : P v :=
            match v with
            | Undefined => HU
            | Null => HN
            | Bool b => HB b
            | Num n => Hn n
            | Str s => HS s
            | Arr elements =>
                HA elements
                   ((fix all (l : list value) : Forall P l :=
                       match l with
                       | [] => Forall_nil P
                       | x :: r => Forall_cons x (IH x) (all r)
                       end) elements)
            | Obj props => HO props
            end).
Qed.

(** ** White space around a coordinate *)

Lemma drop_while_skip (f : N -> bool) (b x : jsstring) :
  forallb f b = true -> drop_while f (b ++ x) = drop_while f x.
Proof.
  induction b as [|c b IH]; cbn [app forallb drop_while]; [reflexivity|].
  intros H. apply andb_true_iff in H as [Hc Hb]. now rewrite Hc, IH.
Qed.

Lemma drop_while_keeps_the_rest (f : N -> bool) (s a : jsstring)
      (c : N) (t : jsstring) :
  drop_while f s = c :: t -> drop_while f (s ++ a) = (c :: t) ++ a.
Proof.
  induction s as [|d s IH]; cbn [app drop_while]; [discriminate|].
  destruct (f d); [exact IH | now intros [= -> ->]].
Qed.

Lemma drop_while_nothing_left (f : N -> bool) (s : jsstring) :
  drop_while f s = [] -> forallb f s = true.
Proof.
  induction s as [|d s IH]; cbn [forallb drop_while]; [reflexivity|].
  destruct (f d); [exact IH | discriminate].
Qed.

Lemma trim_padded (before s after : jsstring) :
  forallb is_whitespace before = true ->
  forallb is_whitespace after = true ->
  trim (before ++ s ++ after) = trim s.
Proof.
  intros Hb Ha. unfold trim. rewrite (drop_while_skip _ _ _ Hb).
  destruct (drop_while is_whitespace s) as [|c t] eqn:E.
  - apply drop_while_nothing_left in E.
    rewrite (ParserFacts.drop_while_all is_whitespace (s ++ after));
      [reflexivity|].
    rewrite forallb_app. now rewrite E, Ha.
  - rewrite (drop_while_keeps_the_rest _ _ after _ _ E), rev_app_distr.
    rewrite drop_while_skip; [reflexivity|].
    now apply ParserFacts.Forall_forallb, Forall_rev,
              ParserFacts.forallb_Forall.
Qed.

Lemma StringToNumber_padded (before s after : jsstring) :
  forallb is_whitespace before = true ->
  forallb is_whitespace after = true ->
  StringToNumber (before ++ s ++ after) = StringToNumber s.
Proof.
  intros Hb Ha. unfold StringToNumber. now rewrite trim_padded.
Qed.

(** ** Sequences of actions *)

Lemma other_actions_fold (actions : list Action) (s : value) :
  Forall (fun a => type a <> lit "SET_WELLS") actions ->
  fold_left reduce actions s = s.
Proof.
  intros H. induction H as [|a rest Ha _ IH]; cbn [fold_left];
    [reflexivity|].
  unfold reduce at 2. now rewrite (AppFacts.reducer_default s a Ha).
Qed.

Section Laws.

Variable NumberToString : number -> jsstring.

(** ** What can be thrown *)

Lemma ToString_throws_TypeError (v : value) (e : exn) :
  ToString NumberToString v = Throw e -> e = TypeError.
Proof.
  revert e. induction v as [| | b | n | s | elements IH | props]
    using value_nested_ind; intros e; cbn [ToString].
  - discriminate.
  - discriminate.
  - destruct b; discriminate.
  - discriminate.
  - discriminate.
  - induction IH as [|x rest Hx _ IHrest]; [discriminate|].
    destruct (match x with
              | Undefined | Null => Ok []
              | _ => ToString NumberToString x
              end) as [sx|ex] eqn:Ex; cbn [bind].
    + destruct rest as [|y rest']; [discriminate|].
      match goal with
      | |- context [bind ?j _] => destruct j as [r|er] eqn:Er
      end; cbn [bind]; [discriminate|].
      intros [= <-]. now apply IHrest.
    + intros [= <-]. destruct x; try discriminate; now apply Hx.
  - destruct (own props (lit "toString")); [now intros [= <-] | discriminate].
Qed.

Lemma Number_throws_TypeError (v : value) (e : exn) :
  Number NumberToString v = Throw e -> e = TypeError.
Proof.
  unfold Number, ToNumber. destruct v as [| | [] | | | |]; try discriminate.
  - destruct (ToString NumberToString (Arr elements)) eqn:E; [discriminate|].
    cbn [bind]. intros [= <-]. eapply ToString_throws_TypeError; eassumption.
  - destruct (ToString NumberToString (Obj properties)) eqn:E; [discriminate|].
    cbn [bind]. intros [= <-]. eapply ToString_throws_TypeError; eassumption.
Qed.

(** ** One marker *)

(** The index of a well decides the key of its marker and nothing else. *)
Lemma marker_reindex (well : value) (i j : nat) :
  marker NumberToString well j =
    bind (marker NumberToString well i)
         (fun mk => Ok {| key := j;
                          position := position mk;
                          Popup := Popup mk |}).
Proof.
  unfold marker.
  destruct well; cbn [Get bind]; try reflexivity;
    repeat match goal with
           | |- context [bind (Number NumberToString ?x) _] =>
               destruct (Number NumberToString x); cbn [bind]
           end; reflexivity.
Qed.

Lemma marker_throws_TypeError (well : value) (index : nat) (e : exn) :
  marker NumberToString well index = Throw e -> e = TypeError.
Proof.
  unfold marker.
  destruct well; cbn [Get bind]; try (now intros [= <-]);
    repeat match goal with
           | |- context [bind (Number NumberToString ?x) _] =>
               let E := fresh "E" in
               destruct (Number NumberToString x) eqn:E; cbn [bind];
               [|intros [= <-];
                 eapply Number_throws_TypeError; eassumption]
           end; discriminate.
Qed.

(** ** All the markers *)

Lemma map_from_app (l1 l2 : list value) :
  forall index : nat,
    map_from NumberToString index (l1 ++ l2) =
      bind (map_from NumberToString index l1)
           (fun ms1 =>
              bind (map_from NumberToString (index + length l1) l2)
                   (fun ms2 => Ok (ms1 ++ ms2))).
Proof.
  induction l1 as [|w l1 IH]; intros index; cbn [app map_from length bind].
  - rewrite Nat.add_0_r.
    destruct (map_from NumberToString index l2); reflexivity.
  - destruct (marker NumberToString w index) as [m|e]; cbn [bind];
      [|reflexivity].
    rewrite IH, <- plus_n_Sm. cbn [Nat.add].
    destruct (map_from NumberToString (S index) l1) as [ms1|e]; cbn [bind];
      [|reflexivity].
    destruct (map_from NumberToString (S (index + length l1)) l2);
      reflexivity.
Qed.

Lemma map_from_throws_TypeError (elements : list value) :
  forall (index : nat) (e : exn),
    map_from NumberToString index elements = Throw e -> e = TypeError.
Proof.
  induction elements as [|w rest IH]; intros index e; cbn [map_from];
    [discriminate|].
  destruct (marker NumberToString w index) as [m|em] eqn:Em; cbn [bind].
  - destruct (map_from NumberToString (S index) rest) as [ms|er] eqn:Er;
      cbn [bind]; [discriminate|].
    intros [= <-]. eapply IH; eassumption.
  - intros [= <-]. eapply marker_throws_TypeError; eassumption.
Qed.

Lemma map_from_Ok_iff (elements : list value) :
  forall index : nat,
    (exists ms, map_from NumberToString index elements = Ok ms) <->
    Forall (fun well => exists mk, marker NumberToString well 0 = Ok mk)
           elements.
Proof.
  induction elements as [|w rest IH]; intros index; cbn [map_from].
  - split; [constructor | intros _; now exists []].
  - rewrite (marker_reindex w 0 index). split.
    + intros [ms H].
      destruct (marker NumberToString w 0) as [m|] eqn:Em; [|discriminate].
      cbn [bind] in H.
      destruct (map_from NumberToString (S index) rest) as [ms'|] eqn:Er;
        [|discriminate].
      constructor; [now exists m|]. apply (IH (S index)). now exists ms'.
    + intros H. inversion H as [|x r [m Hm] Hrest]; subst.
      apply (IH (S index)) in Hrest as [ms' Hms'].
      rewrite Hm, Hms'. cbn [bind]. eexists; reflexivity.
Qed.

(** ** The render as a whole *)

(** X1. The render is all or nothing: an array state yields markers
    exactly when every element, taken alone, gets a marker. *)
Theorem render_is_all_or_nothing (elements : list value) :
  (exists ms, wells_map NumberToString (Arr elements) = Ok ms) <->
  Forall (fun well => exists mk, marker NumberToString well 0 = Ok mk)
         elements.
Proof. cbn [wells_map]. apply map_from_Ok_iff. Qed.

(** X3. A [null] anywhere in the array makes the render throw: no marker
    is returned, for any record. *)
Theorem null_record_breaks_the_render (elements : list value) :
  In Null elements ->
  wells_map NumberToString (Arr elements) = Throw TypeError.
Proof.
  intros Hin.
  destruct (wells_map NumberToString (Arr elements)) as [ms|e] eqn:E.
  - assert (H : exists ms, wells_map NumberToString (Arr elements) = Ok ms)
      by now exists ms.
    cbn [wells_map] in H. apply map_from_Ok_iff in H.
    rewrite Forall_forall in H. destruct (H Null Hin) as [mk Hmk].
    discriminate.
  - cbn [wells_map] in E.
    now rewrite (map_from_throws_TypeError elements 0 e E).
Qed.

(** X4. The markers of a response that continues another one start with
    the markers of that other one, unchanged; the further records get
    the further keys. *)
Theorem markers_of_an_extended_response (l1 l2 : list value)
        (ms : list Marker) :
  wells_map NumberToString (Arr (l1 ++ l2)) = Ok ms ->
  exists ms1 ms2,
    wells_map NumberToString (Arr l1) = Ok ms1 /\
    map_from NumberToString (length l1) l2 = Ok ms2 /\
    ms = ms1 ++ ms2 /\
    map key ms2 = seq (length l1) (length l2).
Proof.
  cbn [wells_map]. rewrite map_from_app. cbn [Nat.add].
  destruct (map_from NumberToString 0 l1) as [ms1|] eqn:E1; [|discriminate].
  cbn [bind].
  destruct (map_from NumberToString (length l1) l2) as [ms2|] eqn:E2;
    [|discriminate].
  cbn [bind]. intros [= <-]. exists ms1, ms2.
  repeat split. exact (AppFacts.map_from_keys NumberToString l2 _ ms2 E2).
Qed.

(** X5. A marker depends on the ten properties the callback reads and on
    nothing else of the record: records that agree on those ten get the
    same marker. *)
Theorem marker_reads_only_its_ten_fields
        (p1 p2 : list (jsstring * value)) (index : nat) :
  (forall name, In name Fields.read_by_marker -> own p1 name = own p2 name) ->
  marker NumberToString (Obj p1) index = marker NumberToString (Obj p2) index.
Proof.
  intros H. unfold marker. cbn [Get bind].
  rewrite !(H (lit _)) by (cbn; tauto). reflexivity.
Qed.

(** X6. A coordinate that is not a string is coerced all the same: a
    missing one is [NaN], [null] and [false] are [+0], [true] is [1], and
    a number is itself. *)
Theorem coordinate_that_is_not_a_string
        (props : list (jsstring * value)) (index : nat) (mk : Marker) :
  marker NumberToString (Obj props) index = Ok mk ->
  (forall name part,
      (name, part) = (lit "LATITUDE", fst (position mk)) \/
      (name, part) = (lit "LONGITUDE", snd (position mk)) ->
      (own props name = None -> part = NaN) /\
      (own props name = Some Null -> part = Zero false) /\
      (own props name = Some (Bool false) -> part = Zero false) /\
      (own props name = Some (Bool true) -> part = of_decimal false 1 0) /\
      (forall n, own props name = Some (Num n) -> part = n)).
Proof.
  unfold marker. cbn [Get bind].
  match goal with
  | |- context [bind (Number NumberToString ?x) _] =>
      destruct (Number NumberToString x) as [lat|] eqn:Elat; [|discriminate]
  end.
  cbn [bind].
  match goal with
  | |- context [bind (Number NumberToString ?x) _] =>
      destruct (Number NumberToString x) as [lng|] eqn:Elng; [|discriminate]
  end.
  cbn [bind]. intros [= <-]. cbn [position fst snd].
  intros name part [[= -> ->] | [= -> ->]].
  - repeat split; [intros H | intros H | intros H | intros H | intros n H];
      rewrite H in Elat; now injection Elat as <-.
  - repeat split; [intros H | intros H | intros H | intros H | intros n H];
      rewrite H in Elng; now injection Elng as <-.
Qed.

(** X7. An element that is a boolean, a number, a string or an array is
    rendered as the empty record would be: a marker at [(NaN, NaN)] whose
    popup shows the fallback on every line. *)
Theorem element_that_is_not_an_object (well : value) (index : nat) :
  match well with
  | Bool _ | Num _ | Str _ | Arr _ => True
  | _ => False
  end ->
  marker NumberToString well index = marker NumberToString (Obj []) index /\
  exists mk,
    marker NumberToString well index = Ok mk /\
    position mk = (NaN, NaN) /\
    forall name place,
      In (name, place) Fields.displayed_at ->
      nth_error (Popup mk) place = Some (expr (Str (lit "Unknown"))).
Proof.
  intros H.
  assert (E : marker NumberToString well index
              = marker NumberToString (Obj []) index)
    by (destruct well; try contradiction; reflexivity).
  split; [exact E|]. rewrite E. eexists. split; [reflexivity|].
  split; [reflexivity|].
  intros name place Hin. cbn in Hin.
  repeat (destruct Hin as [[= <- <-] | Hin]; [reflexivity|]).
  contradiction.
Qed.

(** X8. In the popup a display field that is [null] shows the fallback,
    like a missing one, while any other value, the empty string
    included, is shown as it is. *)
Theorem display_field_that_is_null_or_empty
        (props : list (jsstring * value)) (index : nat) (mk : Marker) :
  marker NumberToString (Obj props) index = Ok mk ->
  forall name place,
    In (name, place) Fields.displayed_at ->
    (own props name = Some Null ->
     nth_error (Popup mk) place = Some (expr (Str (lit "Unknown")))) /\
    (own props name = Some (Str []) ->
     nth_error (Popup mk) place = Some (expr (Str []))) /\
    (forall v, own props name = Some v -> v <> Null -> v <> Undefined ->
               nth_error (Popup mk) place = Some (expr v)).
Proof.
  unfold marker. cbn [Get bind].
  destruct (Number NumberToString _) as [lat|]; [|discriminate].
  cbn [bind].
  destruct (Number NumberToString _) as [lng|]; [|discriminate].
  cbn [bind]. intros [= <-]. cbn [Popup].
  intros name place Hin. unfold Fields.displayed_at in Hin. cbn [In] in Hin.
  repeat (destruct Hin as [[= <- <-] | Hin];
          [repeat split;
           [intros -> | intros -> | intros v -> Hn Hu];
           try reflexivity;
           destruct v; try congruence; reflexivity|]).
  contradiction.
Qed.

(** ** Coordinates, continued *)

(** X9. White space around a coordinate string does not move the
    marker: the position is that of the strings without the padding. *)
Theorem padding_does_not_move_the_marker
        (props : list (jsstring * value)) (index : nat)
        (lat lng b1 a1 b2 a2 : jsstring) :
  own props (lit "LATITUDE") = Some (Str (b1 ++ lat ++ a1)) ->
  own props (lit "LONGITUDE") = Some (Str (b2 ++ lng ++ a2)) ->
  forallb is_whitespace (b1 ++ a1 ++ b2 ++ a2) = true ->
  exists mk,
    marker NumberToString (Obj props) index = Ok mk /\
    position mk = (StringToNumber lat, StringToNumber lng).
Proof.
  intros Hlat Hlng Hws.
  rewrite !forallb_app in Hws.
  apply andb_true_iff in Hws as [Hb1 Hws].
  apply andb_true_iff in Hws as [Ha1 Hws].
  apply andb_true_iff in Hws as [Hb2 Ha2].
  destruct (AppFacts.marker_of_strings NumberToString props index _ _
              Hlat Hlng) as (mk & Hmk & _ & Hpos).
  exists mk. split; [exact Hmk|].
  now rewrite Hpos, !StringToNumber_padded.
Qed.

(** X10. With string coordinates, a part of the position is [NaN]
    exactly when its string is outside the numeric grammar: a numeric
    string never gives [NaN]. *)
Theorem position_is_NaN_exactly_outside_the_grammar
        (props : list (jsstring * value)) (index : nat) (lat lng : jsstring) :
  own props (lit "LATITUDE") = Some (Str lat) ->
  own props (lit "LONGITUDE") = Some (Str lng) ->
  exists mk,
    marker NumberToString (Obj props) index = Ok mk /\
    (fst (position mk) = NaN <-> ~ Grammar.StringNumericLiteral lat) /\
    (snd (position mk) = NaN <-> ~ Grammar.StringNumericLiteral lng).
Proof.
  intros Hlat Hlng.
  destruct (AppFacts.marker_of_strings NumberToString props index _ _
              Hlat Hlng) as (mk & Hmk & _ & Hpos).
  exists mk. split; [exact Hmk|]. rewrite Hpos. cbn [fst snd].
  split; apply ParserFacts.StringToNumber_NaN_iff.
Qed.

(** X11. A coordinate that is a JSON object or array.  An object with a
    [toString] property of its own makes the marker callback throw; any
    other object gives [NaN]; the empty array gives [+0], and an array
    holding one string gives what that string gives. *)
Theorem coordinate_that_is_an_object_or_array
        (props : list (jsstring * value)) (index : nat) (name : jsstring) :
  name = lit "LATITUDE" \/ name = lit "LONGITUDE" ->
  (forall o,
      own props name = Some (Obj o) -> own o (lit "toString") <> None ->
      marker NumberToString (Obj props) index = Throw TypeError) /\
  (forall mk part,
      marker NumberToString (Obj props) index = Ok mk ->
      (name, part) = (lit "LATITUDE", fst (position mk)) \/
      (name, part) = (lit "LONGITUDE", snd (position mk)) ->
      (forall o, own props name = Some (Obj o) -> part = NaN) /\
      (own props name = Some (Arr []) -> part = Zero false) /\
      (forall s, own props name = Some (Arr [Str s]) ->
                 part = StringToNumber s)).
Proof.
  intros Hname. split.
  - intros o Ho Hts.
    assert (Hn : Number NumberToString (Obj o) = Throw TypeError).
    { unfold Number, ToNumber. cbn [ToString].
      destruct (own o (lit "toString")); [reflexivity | contradiction]. }
    destruct (marker NumberToString (Obj props) index) as [mk|e] eqn:E;
      [|now rewrite (marker_throws_TypeError _ _ _ E)].
    destruct (AppFacts.marker_inv NumberToString _ _ _ E)
      as (la & lo & lat & lng & Hla & Hlat & Hlo & Hlng & _).
    cbn [Get] in Hla, Hlo. injection Hla as <-. injection Hlo as <-.
    destruct Hname as [-> | ->].
    + rewrite Ho, Hn in Hlat. discriminate.
    + rewrite Ho, Hn in Hlng. discriminate.
  - intros mk part E Hpart.
    destruct (AppFacts.marker_inv NumberToString _ _ _ E)
      as (la & lo & lat & lng & Hla & Hlat & Hlo & Hlng & _ & Hpos).
    cbn [Get] in Hla, Hlo. injection Hla as <-. injection Hlo as <-.
    rewrite Hpos in Hpart. cbn [fst snd] in Hpart.
    assert (Hobj : forall o n,
               Number NumberToString (Obj o) = Ok n -> n = NaN).
    { intros o n. unfold Number, ToNumber. cbn [ToString].
      destruct (own o (lit "toString")); [discriminate|].
      cbn [bind]. now intros [= <-]. }
    destruct Hpart as [[= -> ->] | [= -> ->]].
    + repeat split; [intros o H | intros H | intros s H];
        rewrite H in Hlat.
      * now apply Hobj in Hlat.
      * now injection Hlat as <-.
      * now injection Hlat as <-.
    + repeat split; [intros o H | intros H | intros s H];
        rewrite H in Hlng.
      * now apply Hobj in Hlng.
      * now injection Hlng as <-.
      * now injection Hlng as <-.
Qed.

(** ** The render and the state *)

(** X12. A render, whether it returns or throws, leaves the state cell
    alone and dispatches nothing; all it does besides is to write its one
    line to the console. *)
Theorem render_changes_only_the_console (m : machine) :
  wells (snd (App NumberToString m)) = wells m /\
  dispatched (snd (App NumberToString m)) = dispatched m /\
  console (snd (App NumberToString m))
    = console m ++ [console_log (lit "App component rendered") []].
Proof.
  destruct (wells_map NumberToString (wells m)) as [ms|e] eqn:E.
  - destruct (AppFacts.App_renders NumberToString m ms E) as (tree & -> & _).
    repeat split.
  - rewrite (AppFacts.App_throws NumberToString m e E). repeat split.
Qed.

End Laws.

(** ** The effect *)


(** X14. Loads on one state cell compose: after any earlier loads, a
    load whose body parses leaves that body as the state, and a load that
    fails leaves the state the earlier loads had reached. *)
Theorem later_load_decides_the_state
        (nets : list fetched) (net : fetched) (m : machine) :
  (forall status data,
      net = Ok {| status := status; json := Ok data |} ->
      data <> Undefined ->
      wells (Fields.loads (nets ++ [net]) m) = data) /\
  (forall e,
      net = Throw e \/
      (exists status, net = Ok {| status := status; json := Throw e |}) ->
      wells (Fields.loads (nets ++ [net]) m) = wells (Fields.loads nets m)).
Proof.
  unfold Fields.loads. rewrite fold_left_app. cbn [fold_left]. split.
  - intros status data -> Hdef. rewrite AppFacts.useEffect_received.
    cbn [snd wells]. unfold reduce. rewrite AppFacts.reducer_SET_WELLS.
    now apply AppFacts.produce_replaces.
  - intros e H. now rewrite (AppFacts.useEffect_failed _ e _ H).
Qed.

(** ** The reducer *)

(** X15. The last [SET_WELLS] wins: after any actions, a [SET_WELLS]
    followed only by actions of other types leaves its payload as the
    state. *)
Theorem last_SET_WELLS_wins
        (before after : list Action) (data state : value) :
  data <> Undefined ->
  Forall (fun a => type a <> lit "SET_WELLS") after ->
  fold_left reduce (before ++ SET_WELLS data :: after) state = data.
Proof.
  intros Hdef Hafter. rewrite fold_left_app. cbn [fold_left].
  rewrite (other_actions_fold after _ Hafter).
  unfold reduce. rewrite AppFacts.reducer_SET_WELLS.
  now apply AppFacts.produce_replaces.
Qed.

(** X16. The state cell never becomes [undefined]: from a state that
    is not, no sequence of actions, whatever their types and payloads,
    leads to it. *)
Theorem state_is_never_undefined (actions : list Action) (state : value) :
  state <> Undefined -> fold_left reduce actions state <> Undefined.
Proof.
  revert state. induction actions as [|a rest IH]; intros state H;
    cbn [fold_left]; [exact H|].
  apply IH. unfold reduce, Immer.produce.
  destruct (reducer state a); try discriminate. exact H.
Qed.

(** ** The laws at concrete inputs *)

Lemma null_record_breaks_the_render_witness :
  In Null [Samples.well_A; Null] /\
  wells_map Samples.unused (Arr [Samples.well_A; Null]) = Throw TypeError.
Proof.
  assert (H : In Null [Samples.well_A; Null]) by (right; left; reflexivity).
  split; [exact H|].
  exact (null_record_breaks_the_render
           Samples.unused [Samples.well_A; Null] H).
Defined.

Lemma markers_of_an_extended_response_witness :
  exists ms,
    wells_map Samples.unused (Arr ([Samples.well_A] ++ [Samples.well_A]))
      = Ok ms /\
    exists ms1 ms2,
      wells_map Samples.unused (Arr [Samples.well_A]) = Ok ms1 /\
      ms = ms1 ++ ms2 /\
      map key ms2 = [1].
Proof.
  eexists. split; [reflexivity|].
  destruct (markers_of_an_extended_response
              Samples.unused [Samples.well_A] [Samples.well_A] _ eq_refl)
    as (ms1 & ms2 & H1 & _ & Hms & Hkeys).
  exists ms1, ms2. repeat split; assumption.
Defined.

Lemma marker_reads_only_its_ten_fields_witness :
  (forall name,
      In name Fields.read_by_marker ->
      own Samples.well_A_props name = own Fields.well_A_with_county name) /\
  marker Samples.unused (Obj Samples.well_A_props) 7
    = marker Samples.unused (Obj Fields.well_A_with_county) 7.
Proof.
  assert (H : forall name,
             In name Fields.read_by_marker ->
             own Samples.well_A_props name
             = own Fields.well_A_with_county name).
  { intros name Hin. cbn in Hin.
    repeat (destruct Hin as [<- | Hin]; [reflexivity|]). contradiction. }
  split; [exact H|].
  exact (marker_reads_only_its_ten_fields
           Samples.unused Samples.well_A_props Fields.well_A_with_county 7 H).
Defined.

Lemma coordinate_that_is_not_a_string_witness :
  exists mk,
    marker Samples.unused (Obj Fields.loose_props) 0 = Ok mk /\
    fst (position mk) = Zero false /\
    snd (position mk) = negate (of_decimal false 1036 (-1)).
Proof.
  eexists. split; [reflexivity|].
  pose proof (coordinate_that_is_not_a_string
                Samples.unused Fields.loose_props 0 _ eq_refl) as H.
  split.
  - destruct (H _ _ (or_introl eq_refl)) as (_ & Hnull & _).
    exact (Hnull eq_refl).
  - destruct (H _ _ (or_intror eq_refl)) as (_ & _ & _ & _ & Hnum).
    exact (Hnum _ eq_refl).
Defined.

Lemma element_that_is_not_an_object_witness :
  exists mk,
    marker Samples.unused (Str (lit "oops")) 3 = Ok mk /\
    position mk = (NaN, NaN).
Proof.
  destruct (element_that_is_not_an_object
              Samples.unused (Str (lit "oops")) 3 I)
    as (_ & mk & Hmk & Hpos & _).
  exists mk. split; assumption.
Defined.

Lemma display_field_that_is_null_or_empty_witness :
  exists mk,
    marker Samples.unused (Obj Fields.loose_props) 0 = Ok mk /\
    nth_error (Popup mk) 2 = Some (expr (Str (lit "Unknown"))) /\
    nth_error (Popup mk) 10 = Some (expr (Str [])).
Proof.
  eexists. split; [reflexivity|].
  pose proof (display_field_that_is_null_or_empty
                Samples.unused Fields.loose_props 0 _ eq_refl) as H.
  split.
  - destruct (H (lit "WELL_NAME") 2) as (Hnull & _);
      [left; reflexivity|].
    exact (Hnull eq_refl).
  - destruct (H (lit "WELL_TYPE") 10) as (_ & Hempty & _);
      [right; right; left; reflexivity|].
    exact (Hempty eq_refl).
Defined.

Lemma padding_does_not_move_the_marker_witness :
  own Fields.padded_props (lit "LATITUDE")
    = Some (Str (lit " " ++ lit "48.21" ++ lit " ")) /\
  own Fields.padded_props (lit "LONGITUDE")
    = Some (Str ([] ++ lit "-103.6" ++ lit "  ")) /\
  forallb is_whitespace (lit " " ++ lit " " ++ [] ++ lit "  ") = true /\
  exists mk,
    marker Samples.unused (Obj Fields.padded_props) 0 = Ok mk /\
    position mk = (StringToNumber (lit "48.21"),
                   StringToNumber (lit "-103.6")).
Proof.
  split; [reflexivity|]. split; [reflexivity|]. split; [reflexivity|].
  exact (padding_does_not_move_the_marker
           Samples.unused Fields.padded_props 0
           (lit "48.21") (lit "-103.6") (lit " ") (lit " ") [] (lit "  ")
           eq_refl eq_refl eq_refl).
Defined.

Lemma position_is_NaN_exactly_outside_the_grammar_witness :
  own Samples.well_A_props (lit "LATITUDE") = Some (Str (lit "48.21")) /\
  own Samples.well_A_props (lit "LONGITUDE") = Some (Str (lit "-103.6")) /\
  exists mk,
    marker Samples.unused Samples.well_A 0 = Ok mk /\
    (fst (position mk) = NaN <-> ~ Grammar.StringNumericLiteral (lit "48.21")).
Proof.
  split; [reflexivity|]. split; [reflexivity|].
  destruct (position_is_NaN_exactly_outside_the_grammar
              Samples.unused Samples.well_A_props 0
              (lit "48.21") (lit "-103.6") eq_refl eq_refl)
    as (mk & Hmk & Hlat & _).
  exists mk. split; assumption.
Defined.

Lemma coordinate_that_is_an_object_or_array_witness :
  (lit "LATITUDE" = lit "LATITUDE" \/ lit "LATITUDE" = lit "LONGITUDE") /\
  own Fields.object_latitude_props (lit "LATITUDE")
    = Some (Obj [(lit "toString", Str (lit "48.21"))]) /\
  own [(lit "toString", Str (lit "48.21"))] (lit "toString") <> None /\
  marker Samples.unused (Obj Fields.object_latitude_props) 0
    = Throw TypeError.
Proof.
  assert (Hname : lit "LATITUDE" = lit "LATITUDE" \/
                  lit "LATITUDE" = lit "LONGITUDE") by (left; reflexivity).
  assert (Hts : own [(lit "toString", Str (lit "48.21"))] (lit "toString")
                <> None) by discriminate.
  split; [exact Hname|]. split; [reflexivity|]. split; [exact Hts|].
  exact (proj1 (coordinate_that_is_an_object_or_array
                  Samples.unused Fields.object_latitude_props 0
                  (lit "LATITUDE") Hname)
               _ eq_refl Hts).
Defined.

Lemma later_load_decides_the_state_witness :
  (Samples.offline = Throw NetworkError \/
   exists status,
     Samples.offline
     = Ok {| status := status; json := Throw NetworkError |}) /\
  wells (Fields.loads
           ([Ok {| status := 200; json := Ok (Arr [Samples.well_A]) |}]
              ++ [Samples.offline]) boot)
    = Arr [Samples.well_A].
Proof.
  assert (H : Samples.offline = Throw NetworkError \/
              exists status,
                Samples.offline
                = Ok {| status := status; json := Throw NetworkError |})
    by (left; reflexivity).
  split; [exact H|].
  exact (proj2 (later_load_decides_the_state
                  [Ok {| status := 200; json := Ok (Arr [Samples.well_A]) |}]
                  Samples.offline boot)
               NetworkError H).
Defined.

Lemma last_SET_WELLS_wins_witness :
  Arr [Samples.well_A] <> Undefined /\
  Forall (fun a => type a <> lit "SET_WELLS") [Samples.CLEAR_WELLS] /\
  fold_left reduce
            ([SET_WELLS Samples.error_body]
               ++ SET_WELLS (Arr [Samples.well_A]) :: [Samples.CLEAR_WELLS])
            initialState
    = Arr [Samples.well_A].
Proof.
  assert (Hdef : Arr [Samples.well_A] <> Undefined) by discriminate.
  assert (Hafter : Forall (fun a => type a <> lit "SET_WELLS")
                          [Samples.CLEAR_WELLS])
    by (constructor; [discriminate | constructor]).
  split; [exact Hdef|]. split; [exact Hafter|].
  exact (last_SET_WELLS_wins
           [SET_WELLS Samples.error_body] [Samples.CLEAR_WELLS]
           (Arr [Samples.well_A]) initialState Hdef Hafter).
Defined.

Lemma state_is_never_undefined_witness :
  initialState <> Undefined /\
  fold_left reduce
            [SET_WELLS Undefined; Samples.CLEAR_WELLS;
             SET_WELLS Samples.error_body; SET_WELLS Undefined]
            initialState
    <> Undefined.
Proof.
  assert (H : initialState <> Undefined) by discriminate.
  split; [exact H|].
  exact (state_is_never_undefined
           [SET_WELLS Undefined; Samples.CLEAR_WELLS;
            SET_WELLS Samples.error_body; SET_WELLS Undefined]
           initialState H).
Defined.

End AppLaws.
